(** * Verification of the SageMaker inference agent's config templater

    Shallow embedding of
    [plugins/flytekit-aws-sagemaker/flytekitplugins/awssagemaker_inference/boto3_mixin.py]:
    [sorted_dict_str], [account_id_map], [update_dict_fn] and
    [Boto3AgentMixin._call].

    Python values live in an explicit object store: lists and dicts are
    objects with an address, every other value is immediate.  [update_dict_fn]
    assigns into dict objects in place, so two names for one dict see each
    other's writes; the store makes that aliasing visible.

    Strings are sequences of code points below 256 (Rocq's [string]).
    Floats are not modelled.  The interpreter's recursion limit is the
    [fuel] argument of the recursive functions: running out of fuel is
    Python's [RecursionError]. *)

From Stdlib Require Import List String Ascii ZArith NArith Arith Lia Bool.
From Stdlib Require Import DecimalString.
From Stdlib Require Import Permutation.
From Stdlib Require OrderedTypeEx.
Import ListNotations.
Open Scope list_scope.
Open Scope string_scope.

(* ================================================================== *)
(** * Python strings *)
(* ================================================================== *)

Module PyStr.

(** [c in s] for a one-character [c]. *)
Fixpoint contains_char (c : ascii) (s : string) : bool :=
  match s with
  | EmptyString => false
  | String x s' => Ascii.eqb x c || contains_char c s'
  end.

(** [sub in s]. *)
Fixpoint contains (sub s : string) : bool :=
  match s with
  | EmptyString => prefix sub s
  | String _ s' => prefix sub s || contains sub s'
  end.

(** [len(s)] as a Python integer. *)
Definition len (s : string) : Z := Z.of_nat (String.length s).

(** [s[:k]]: a negative [k] counts from the end. *)
Definition slice_to (s : string) (k : Z) : string :=
  let n := len s in
  let stop := if (k <? 0)%Z then Z.max (n + k) 0 else Z.min k n in
  substring 0 (Z.to_nat stop) s.

(** [s.startswith(p)]. *)
Definition startswith (s p : string) : bool := prefix p s.

(** The longest prefix of [s] free of the closing brace, and the rest. *)
Fixpoint span_not_close (s : string) : string * string :=
  match s with
  | EmptyString => (EmptyString, EmptyString)
  | String c s' =>
      if Ascii.eqb c "}" then (EmptyString, s)
      else let (g, rest) := span_not_close s' in (String c g, rest)
  end.

(** [re.findall(r"\{([^}]+)\}", s)].  The scan is left to right; after a
    match it resumes behind the closing brace ([skip] counts the characters
    of the match still to be passed over).  At an opening brace the greedy
    class [[^}]+] takes every character up to the next closing brace; the
    match fails when that run is empty or the string ends first, and the
    scan moves on by one character. *)
Fixpoint findall_from (skip : nat) (s : string) : list string :=
  match s with
  | EmptyString => []
  | String c s' =>
      match skip with
      | S k => findall_from k s'
      | O =>
          if Ascii.eqb c "{" then
            match span_not_close s' with
            | (String g0 g, String _ _) =>
                String g0 g :: findall_from (S (String.length (String g0 g))) s'
            | _ => findall_from 0 s'
            end
          else findall_from 0 s'
      end
  end.

Definition findall (s : string) : list string := findall_from 0 s.

(** [s.split(".")]. *)
Fixpoint split_dot (s : string) : list string :=
  match s with
  | EmptyString => [EmptyString]
  | String c s' =>
      if Ascii.eqb c "." then EmptyString :: split_dot s'
      else match split_dot s' with
           | x :: xs => String c x :: xs
           | [] => [String c EmptyString]
           end
  end.

(** [s.replace(old, new)] for a non-empty [old]: every non-overlapping
    occurrence, left to right. *)
Fixpoint replace_from (old new : string) (skip : nat) (s : string) : string :=
  match s with
  | EmptyString => EmptyString
  | String c s' =>
      match skip with
      | S k => replace_from old new k s'
      | O =>
          if prefix old s
          then new ++ replace_from old new (String.length old - 1) s'
          else String c (replace_from old new 0 s')
      end
  end.

(** [s.replace("", new)]: [new] before every character and at the end. *)
Fixpoint intersperse (new s : string) : string :=
  match s with
  | EmptyString => new
  | String c s' => new ++ String c (intersperse new s')
  end.

Definition replace (s old new : string) : string :=
  match old with
  | EmptyString => intersperse new s
  | String _ _ => replace_from old new 0 s
  end.

(** The f-string [f"{{{m}}}"]. *)
Definition braced (m : string) : string := "{" ++ m ++ "}".

(** ** [str] of an integer and [repr] of a string *)

Definition str_of_Z (z : Z) : string := NilZero.string_of_int (Z.to_int z).

Definition hex_digit (n : N) : ascii :=
  if (n <? 10)%N then ascii_of_N (48 + n) else ascii_of_N (87 + n).

Definition hex_escape (n : N) : string :=
  String "\" (String "x" (String (hex_digit (n / 16)) (String (hex_digit (n mod 16)) EmptyString))).

Definition dquote : ascii := ascii_of_nat 34.
Definition squote : ascii := "'"%char.

(** One character of [repr(s)], for the chosen quote. *)
Definition repr_char (quote c : ascii) : string :=
  let n := N_of_ascii c in
  if Ascii.eqb c quote || Ascii.eqb c "\" then String "\" (String c EmptyString)
  else if (n =? 9)%N then "\t"
  else if (n =? 10)%N then "\n"
  else if (n =? 13)%N then "\r"
  else if (n <? 32)%N || (n =? 127)%N then hex_escape n
  else if (n <? 127)%N then String c EmptyString
  else if (n <=? 160)%N || (n =? 173)%N then hex_escape n
  else String c EmptyString.

Fixpoint repr_chars (quote : ascii) (s : string) : string :=
  match s with
  | EmptyString => EmptyString
  | String c s' => repr_char quote c ++ repr_chars quote s'
  end.

(** [repr(s)]: single quotes, unless [s] has a single quote and no double
    quote. *)
Definition repr_str (s : string) : string :=
  let quote :=
    if contains_char squote s && negb (contains_char dquote s)
    then dquote else squote in
  String quote (repr_chars quote s ++ String quote EmptyString).

End PyStr.

(* ================================================================== *)
(** * Values, objects and the store *)
(* ================================================================== *)

Definition addr := nat.

(** A Python value: [None], a bool, an int, a str, or a reference to a list
    or dict object. *)
Inductive val : Type :=
  | VNone
  | VBool (b : bool)
  | VInt (z : Z)
  | VStr (s : string)
  | VRef (a : addr).

(** A dict keeps its entries in insertion order, with string keys as in
    [Dict[str, Any]]. *)
Inductive obj : Type :=
  | OList (items : list val)
  | ODict (entries : list (string * val)).

Definition heap := list obj.

Definition deref (h : heap) (a : addr) : option obj := nth_error h a.

(** A fresh object goes to the end of the store. *)
Definition alloc (o : obj) (h : heap) : val * heap :=
  (VRef (List.length h), (h ++ [o])%list).

Fixpoint set_nth {A : Type} (i : nat) (x : A) (l : list A) : list A :=
  match l, i with
  | [], _ => []
  | _ :: l', O => x :: l'
  | y :: l', S i' => y :: set_nth i' x l'
  end.

(** [d.get(k)]. *)
Fixpoint dict_get (k : string) (d : list (string * val)) : option val :=
  match d with
  | [] => None
  | (k', v) :: d' => if String.eqb k' k then Some v else dict_get k d'
  end.

(** [d[k] = v] on the entries: an existing key keeps its position, a new
    key goes last. *)
Fixpoint dict_set (k : string) (v : val) (d : list (string * val))
  : list (string * val) :=
  match d with
  | [] => [(k, v)]
  | (k', v') :: d' =>
      if String.eqb k' k then (k', v) :: d' else (k', v') :: dict_set k v d'
  end.

(** [h[a][k] = v] for the dict object at [a]. *)
Definition store_item (h : heap) (a : addr) (k : string) (v : val) : heap :=
  match deref h a with
  | Some (ODict d) => set_nth a (ODict (dict_set k v d)) h
  | _ => h
  end.

(** Exceptions.  [HeapFault] stands for a dangling reference, which no
    Python program can hold. *)
Inductive exn : Type :=
  | ValueError (msg : string)
  | TypeError (msg : string)
  | KeyError (key : string)
  | IndexError (msg : string)
  | AttributeError (msg : string)
  | RecursionError
  | HeapFault
  | ClientError (msg : string)
  | CustomException (msg : string) (idempotence_token : string)
                    (original_exception : exn).

(** [isinstance(e, LookupError)]: [KeyError] and [IndexError] are its only
    subclasses here. *)
Definition is_LookupError (e : exn) : bool :=
  match e with
  | KeyError _ | IndexError _ => true
  | _ => false
  end.

Definition is_ValueError (e : exn) : bool :=
  match e with
  | ValueError _ => true
  | _ => false
  end.

(** The result of a computation on the store: a value or an exception,
    and the store as it is left. *)
Inductive outcome (A : Type) : Type :=
  | Ret (a : A) (h : heap)
  | Raise (e : exn) (h : heap).
Arguments Ret {A} a h.
Arguments Raise {A} e h.

Definition heap_of {A : Type} (o : outcome A) : heap :=
  match o with
  | Ret _ h => h
  | Raise _ h => h
  end.

(** ** [repr], [str] and truth value *)

Definition type_name (h : heap) (v : val) : string :=
  match v with
  | VNone => "NoneType"
  | VBool _ => "bool"
  | VInt _ => "int"
  | VStr _ => "str"
  | VRef a => match deref h a with
              | Some (ODict _) => "dict"
              | _ => "list"
              end
  end.

Fixpoint mem_addr (a : addr) (l : list addr) : bool :=
  match l with
  | [] => false
  | b :: l' => Nat.eqb a b || mem_addr a l'
  end.

(** [repr(v)].  [active] holds the containers whose [repr] is under way:
    meeting one of them again prints an ellipsis, as CPython does for a
    container that contains itself. *)
Fixpoint py_repr (fuel : nat) (active : list addr) (h : heap) (v : val)
  : string :=
  match v with
  | VNone => "None"
  | VBool true => "True"
  | VBool false => "False"
  | VInt z => PyStr.str_of_Z z
  | VStr s => PyStr.repr_str s
  | VRef a =>
      match fuel with
      | O => "..."
      | S f =>
          match deref h a with
          | None => "<dangling>"
          | Some (OList l) =>
              if mem_addr a active then "[...]"
              else "[" ++ concat ", " (map (py_repr f (a :: active) h) l) ++ "]"
          | Some (ODict d) =>
              if mem_addr a active then "{...}"
              else "{" ++ concat ", "
                     (map (fun kv => PyStr.repr_str (fst kv) ++ ": "
                                     ++ py_repr f (a :: active) h (snd kv)) d)
                   ++ "}"
          end
      end
  end.

(** [str(v)]: a str is itself, everything else prints as its [repr].  The
    nesting of distinct containers is at most the size of the store. *)
Definition py_str (h : heap) (v : val) : string :=
  match v with
  | VStr s => s
  | _ => py_repr (S (List.length h)) [] h v
  end.

(** [bool(v)]. *)
Definition truthy (h : heap) (v : val) : bool :=
  match v with
  | VNone => false
  | VBool b => b
  | VInt z => negb (z =? 0)%Z
  | VStr s => negb (String.eqb s "")
  | VRef a => match deref h a with
              | Some (OList []) | Some (ODict []) => false
              | _ => true
              end
  end.

(** [a or b]. *)
Definition py_or (h : heap) (a b : val) : val := if truthy h a then a else b.

(* ================================================================== *)
(** * [sorted_dict_str] *)
(* ================================================================== *)

(** [sorted] is stable; so is this insertion sort: an element goes in
    front of the first one whose key is not smaller. *)
Fixpoint insert_by {A : Type} (key : A -> string) (x : A) (l : list A) : list A :=
  match l with
  | [] => [x]
  | y :: l' =>
      if String.ltb (key y) (key x) then y :: insert_by key x l'
      else x :: y :: l'
  end.

Fixpoint sorted_by {A : Type} (key : A -> string) (l : list A) : list A :=
  match l with
  | [] => []
  | x :: l' => insert_by key x (sorted_by key l')
  end.

Fixpoint map_exn {A B : Type} (f : A -> exn + B) (l : list A) : exn + list B :=
  match l with
  | [] => inr []
  | x :: l' =>
      match f x with
      | inl e => inl e
      | inr y => match map_exn f l' with
                 | inl e => inl e
                 | inr ys => inr (y :: ys)
                 end
      end
  end.

(** [sorted(d.items())] compares the (key, value) pairs; the keys of a dict
    differ, so the comparison is decided by the key. *)
Fixpoint sorted_dict_str (fuel : nat) (h : heap) (d : val) : exn + string :=
  match fuel with
  | O => inl RecursionError
  | S f =>
      match d with
      | VRef a =>
          match deref h a with
          | Some (ODict es) =>
              match map_exn (fun kv =>
                               match sorted_dict_str f h (snd kv) with
                               | inl e => inl e
                               | inr sv => inr (fst kv ++ ": " ++ sv)
                               end)
                            (sorted_by fst es) with
              | inl e => inl e
              | inr parts => inr ("{" ++ concat ", " parts ++ "}")
              end
          | Some (OList l) =>
              match map_exn (sorted_dict_str f h) (sorted_by (py_str h) l) with
              | inl e => inl e
              | inr parts => inr ("[" ++ concat ", " parts ++ "]")
              end
          | None => inl HeapFault
          end
      | _ => inr (py_str h d)
      end
  end.

Definition account_id_map : list (string * string) :=
  [ ("us-east-1", "785573368785");
    ("us-east-2", "007439368137");
    ("us-west-1", "710691900526");
    ("us-west-2", "301217895009");
    ("eu-west-1", "802834080501");
    ("eu-west-2", "205493899709");
    ("eu-west-3", "254080097072");
    ("eu-north-1", "601324751636");
    ("eu-south-1", "966458181534");
    ("eu-central-1", "746233611703");
    ("ap-east-1", "110948597952");
    ("ap-south-1", "763008648453");
    ("ap-northeast-1", "941853720454");
    ("ap-northeast-2", "151534178276");
    ("ap-southeast-1", "324986816169");
    ("ap-southeast-2", "355873309152");
    ("cn-northwest-1", "474822919863");
    ("cn-north-1", "472730292857");
    ("sa-east-1", "756306329178");
    ("ca-central-1", "464438896020");
    ("me-south-1", "836785723513");
    ("af-south-1", "774647643957") ].

(* ================================================================== *)
(** * [update_dict_fn] *)
(* ================================================================== *)

(** [container[key]] for a str [key]. *)
Definition subscript (h : heap) (container : val) (key : string) : exn + val :=
  match container with
  | VRef a =>
      match deref h a with
      | Some (ODict d) =>
          match dict_get key d with
          | Some v => inr v
          | None => inl (KeyError key)
          end
      | Some (OList _) =>
          inl (TypeError "list indices must be integers or slices, not str")
      | None => inl HeapFault
      end
  | VStr _ => inl (TypeError "string indices must be integers, not 'str'")
  | _ => inl (TypeError ("'" ++ type_name h container ++ "' object is not subscriptable"))
  end.

(** The loop [for key in keys] of lines 88-92: any exception of the
    subscript becomes a [ValueError] naming the key and the value that had
    been reached. *)
Fixpoint traverse (h : heap) (update_dict_copy : val) (keys : list string)
  : exn + val :=
  match keys with
  | [] => inr update_dict_copy
  | key :: keys' =>
      match subscript h update_dict_copy key with
      | inr v => traverse h v keys'
      | inl _ =>
          inl (ValueError ("Could not find the key " ++ key ++ " in "
                           ++ py_str h update_dict_copy ++ "."))
      end
  end.

(** [update_dict.copy()]: a new object with the same items or entries. *)
Definition py_copy (h : heap) (v : val) : outcome val :=
  match v with
  | VRef a =>
      match deref h a with
      | Some o => let (c, h') := alloc o h in Ret c h'
      | None => Raise HeapFault h
      end
  | _ => Raise (AttributeError ("'" ++ type_name h v ++ "' object has no attribute 'copy'")) h
  end.

(** [match == "idempotence_token" and idempotence_token]. *)
Definition token_applies (m : string) (idempotence_token : option string) : option string :=
  match idempotence_token with
  | Some t => if String.eqb m "idempotence_token" && negb (String.eqb t "")
              then Some t else None
  | None => None
  end.

(** The loop [for match in matches] of lines 78-108 and the [return] of
    line 111.  [original_dict] is the string as rebound so far. *)
Fixpoint subst_matches (matches : list string) (original_dict : string)
    (update_dict : val) (idempotence_token : option string) (h : heap)
  : outcome val :=
  match matches with
  | [] => Ret (VStr original_dict) h
  | m :: matches' =>
      if PyStr.contains_char "." m then
        match py_copy h update_dict with
        | Raise e h1 => Raise e h1
        | Ret update_dict_copy h1 =>
            match traverse h1 update_dict_copy (PyStr.split_dot m) with
            | inl e => Raise e h1
            | inr found =>
                if String.eqb (PyStr.braced m) original_dict then Ret found h1
                else
                  match found with
                  | VStr r =>
                      subst_matches matches'
                        (PyStr.replace original_dict (PyStr.braced m) r)
                        update_dict idempotence_token h1
                  | _ =>
                      Raise (TypeError ("replace() argument 2 must be str, not "
                                        ++ type_name h1 found)) h1
                  end
            end
        end
      else
        match token_applies m idempotence_token with
        | Some t =>
            let temp_dict := PyStr.replace original_dict (PyStr.braced m) t in
            if (63 <? PyStr.len temp_dict)%Z then
              let truncated_idempotence_token :=
                PyStr.slice_to t
                  (63 - PyStr.len (PyStr.replace original_dict "{idempotence_token}" ""))%Z in
              subst_matches matches'
                (PyStr.replace original_dict (PyStr.braced m) truncated_idempotence_token)
                update_dict idempotence_token h
            else subst_matches matches' temp_dict update_dict idempotence_token h
        | None => subst_matches matches' original_dict update_dict idempotence_token h
        end
  end.

(** The str branch, lines 75-111. *)
Definition update_str (original_dict : string) (update_dict : val)
    (idempotence_token : option string) (h : heap) : outcome val :=
  if PyStr.contains_char "{" original_dict && PyStr.contains_char "}" original_dict
  then subst_matches (PyStr.findall original_dict) original_dict
         update_dict idempotence_token h
  else Ret (VStr original_dict) h.

(** The list comprehension of line 115.  Nothing in the module writes into
    a list object, so the items read at the start are the items iterated. *)
Fixpoint map_items (f : val -> heap -> outcome val) (items : list val) (h : heap)
  : outcome (list val) :=
  match items with
  | [] => Ret [] h
  | x :: xs =>
      match f x h with
      | Raise e h1 => Raise e h1
      | Ret y h1 =>
          match map_items f xs h1 with
          | Raise e h2 => Raise e h2
          | Ret ys h2 => Ret (y :: ys) h2
          end
      end
  end.

(** The loop of lines 119-120.  The items view is live: entry [i] is read
    from the dict as it is when the iteration gets there.  Assigning to an
    existing key neither moves it nor changes the size, so the iteration
    visits positions [i], [i+1], ... of the [n] entries. *)
Fixpoint dict_loop (f : val -> heap -> outcome val) (a : addr) (i n : nat) (h : heap)
  : outcome unit :=
  match n with
  | O => Ret tt h
  | S n' =>
      match deref h a with
      | Some (ODict d) =>
          match nth_error d i with
          | Some (key, value) =>
              match f value h with
              | Raise e h1 => Raise e h1
              | Ret v' h1 => dict_loop f a (S i) n' (store_item h1 a key v')
              end
          | None => Ret tt h
          end
      | _ => Raise HeapFault h
      end
  end.

Fixpoint update_dict_fn (fuel : nat) (original_dict : val) (update_dict : val)
    (idempotence_token : option string) (h : heap) : outcome val :=
  match fuel with
  | O => Raise RecursionError h
  | S f =>
      match original_dict with
      | VNone => Ret VNone h
      | VStr s => update_str s update_dict idempotence_token h
      | VRef a =>
          match deref h a with
          | Some (OList items) =>
              match map_items (fun item => update_dict_fn f item update_dict idempotence_token)
                              items h with
              | Raise e h1 => Raise e h1
              | Ret items' h1 => let (r, h2) := alloc (OList items') h1 in Ret r h2
              end
          | Some (ODict d) =>
              match dict_loop (fun value => update_dict_fn f value update_dict idempotence_token)
                              a 0 (List.length d) h with
              | Raise e h1 => Raise e h1
              | Ret _ h1 => Ret original_dict h1
              end
          | None => Raise HeapFault h
          end
      | _ => Ret original_dict h
      end
  end.

(* ================================================================== *)
(** * Nested values as trees *)
(* ================================================================== *)

(** A nested Python value written out as a tree: what a literal denotes,
    and what [==] compares. *)
#[warnings="-register-all"]
Inductive pytree : Type :=
  | TNone
  | TBool (b : bool)
  | TInt (z : Z)
  | TStr (s : string)
  | TList (items : list pytree)
  | TDict (entries : list (string * pytree)).

(** Build the elements of a list one after the other. *)
Definition alloc_each {A B : Type} (f : A -> heap -> B * heap)
  : list A -> heap -> list B * heap :=
  fix go (l : list A) (h : heap) : list B * heap :=
    match l with
    | [] => ([], h)
    | x :: l' =>
        let (v, h1) := f x h in
        let (vs, h2) := go l' h1 in
        (v :: vs, h2)
    end.

(** Build a tree in the store, every container a fresh object.  A key
    written twice in a dict keeps its first position and its last value. *)
Fixpoint alloc_tree (t : pytree) (h : heap) : val * heap :=
  match t with
  | TNone => (VNone, h)
  | TBool b => (VBool b, h)
  | TInt z => (VInt z, h)
  | TStr s => (VStr s, h)
  | TList items =>
      let (vs, h1) := alloc_each alloc_tree items h in
      alloc (OList vs) h1
  | TDict entries =>
      let (es, h1) :=
        alloc_each (fun kx h => let (v, h1) := alloc_tree (snd kx) h in
                                ((fst kx, v), h1)) entries h in
      alloc (ODict (fold_left (fun d kv => dict_set (fst kv) (snd kv) d) es [])) h1
  end.

Fixpoint all_some {A : Type} (l : list (option A)) : option (list A) :=
  match l with
  | [] => Some []
  | None :: _ => None
  | Some x :: l' => option_map (cons x) (all_some l')
  end.

(** Read a value of the store back as a tree; [None] when it nests deeper
    than [depth] containers (so also when it contains itself). *)
Fixpoint snapshot (depth : nat) (h : heap) (v : val) : option pytree :=
  match v with
  | VNone => Some TNone
  | VBool b => Some (TBool b)
  | VInt z => Some (TInt z)
  | VStr s => Some (TStr s)
  | VRef a =>
      match depth with
      | O => None
      | S n =>
          match deref h a with
          | Some (OList l) =>
              option_map TList (all_some (map (snapshot n h) l))
          | Some (ODict d) =>
              option_map TDict
                (all_some (map (fun kv => option_map (pair (fst kv))
                                            (snapshot n h (snd kv))) d))
          | None => None
          end
      end
  end.

(* ================================================================== *)
(** * [Boto3AgentMixin._call] *)
(* ================================================================== *)

Record Boto3AgentMixin : Type := {
  _service : string;
  _region : option string
}.

(** What [_call] does besides computing, in order: each call of
    [update_dict_fn] and the call of the boto3 method. *)
Inductive event : Type :=
  | EvSubstitute (config update_dict : val) (idempotence_token : option string)
  | EvRemoteCall (service : string) (region : val) (method : string) (config : val).

Definition val_of_opt_str (o : option string) : val :=
  match o with
  | Some s => VStr s
  | None => VNone
  end.

Section Call.

(** The collaborators of [_call] that are not part of this module. *)
Variable LiteralMap : Type.
(** [bool(inputs)] for a [LiteralMap] object. *)
Variable literal_map_truthy : LiteralMap -> bool.
(** [flytekit.interaction.string_literals.literal_map_string_repr]. *)
Variable literal_map_string_repr : LiteralMap -> list (string * pytree).
(** [image.format(account_id=..., region=..., base=...)]. *)
Variable str_format : string -> list (string * string) -> exn + string.
(** [xxhash.xxh64(s).hexdigest()]. *)
Variable xxh64_hexdigest : string -> string.
(** The awaited boto3 method: its result, a [ClientError] with its
    [str], or any other exception. *)
Variable Response : Type.
Variable invoke :
  string -> val -> string -> val -> heap -> (Response + exn).

Record call_result : Type := {
  call_outcome : outcome (Response * string);
  call_trace : list event
}.

(** The value of one image in the dict comprehension of lines 181-192. *)
Definition rewrite_image (final_region base : string) (image : val) : exn + val :=
  match image with
  | VStr s =>
      if PyStr.contains "sagemaker-tritonserver" s then
        match (fix get (k : string) (m : list (string * string)) : option string :=
                 match m with
                 | [] => None
                 | (k', v) :: m' => if String.eqb k' k then Some v else get k m'
                 end) final_region account_id_map with
        | None => inl (KeyError final_region)
        | Some account_id =>
            match str_format s [("account_id", account_id);
                                ("region", final_region);
                                ("base", base)] with
            | inl e => inl e
            | inr s' => inr (VStr s')
            end
        end
      else inr image
  | _ => inr image
  end.

(** Lines 179-193. *)
Definition add_images (a_args : addr) (final_region images : val) (h : heap)
  : outcome unit :=
  if truthy h images then
    match final_region with
    | VStr r =>
        let base := if PyStr.startswith r "cn-" then "amazonaws.com.cn"
                    else "amazonaws.com" in
        match images with
        | VRef a =>
            match deref h a with
            | Some (ODict d) =>
                match map_exn (fun kv =>
                                 match rewrite_image r base (snd kv) with
                                 | inl e => inl e
                                 | inr v => inr (fst kv, v)
                                 end) d with
                | inl e => Raise e h
                | inr d' =>
                    let (r', h1) := alloc (ODict d') h in
                    Ret tt (store_item h1 a_args "images" r')
                end
            | _ => Raise (AttributeError "'list' object has no attribute 'items'") h
            end
        | _ => Raise (AttributeError ("'" ++ type_name h images
                                      ++ "' object has no attribute 'items'")) h
        end
    | _ => Raise (AttributeError ("'" ++ type_name h final_region
                                  ++ "' object has no attribute 'startswith'")) h
    end
  else Ret tt h.

(** Lines 203-214. *)
Definition remote_call (self : Boto3AgentMixin) (final_region : val)
    (method : string) (updated_config : val) (hash : string) (h : heap)
    (trace : list event) : call_result :=
  let trace' :=
    (trace ++ [EvRemoteCall (_service self) final_region method updated_config])%list in
  match invoke (_service self) final_region method updated_config h with
  | inl result => {| call_outcome := Ret (result, hash) h; call_trace := trace' |}
  | inr (ClientError msg) =>
      {| call_outcome :=
           Raise (CustomException ("An error occurred: " ++ msg) hash (ClientError msg)) h;
         call_trace := trace' |}
  | inr e => {| call_outcome := Raise e h; call_trace := trace' |}
  end.

Definition _call (fuel : nat) (self : Boto3AgentMixin) (method : string)
    (config : val) (images : val) (inputs : option LiteralMap)
    (region : option string) (h : heap) : call_result :=
  let a_args := List.length h in
  let (args, h0) := alloc (ODict []) h in
  let '(input_region, h1) :=
    match inputs with
    | Some lm =>
        if literal_map_truthy lm then
          let (iv, h') := alloc_tree (TDict (literal_map_string_repr lm)) h0 in
          let h'' := store_item h' a_args "inputs" iv in
          (match subscript h'' iv "region" with
           | inr v => v
           | inl _ => VNone
           end, h'')
        else (VNone, h0)
    | None => (VNone, h0)
    end in
  let final_region :=
    py_or h1 (py_or h1 input_region (val_of_opt_str region))
             (val_of_opt_str (_region self)) in
  if negb (truthy h1 final_region) then
    {| call_outcome := Raise (ValueError "Region parameter is required.") h1;
       call_trace := [] |}
  else
    match add_images a_args final_region images h1 with
    | Raise e h2 => {| call_outcome := Raise e h2; call_trace := [] |}
    | Ret _ h2 =>
        let t1 := [EvSubstitute config args None] in
        match update_dict_fn fuel config args None h2 with
        | Raise e h3 => {| call_outcome := Raise e h3; call_trace := t1 |}
        | Ret updated_config h3 =>
            if PyStr.contains "idempotence_token" (py_str h3 updated_config) then
              match sorted_dict_str fuel h3 updated_config with
              | inl e => {| call_outcome := Raise e h3; call_trace := t1 |}
              | inr canonical =>
                  let hash := xxh64_hexdigest canonical in
                  let t2 := (t1 ++ [EvSubstitute updated_config args (Some hash)])%list in
                  match update_dict_fn fuel updated_config args (Some hash) h3 with
                  | Raise e h4 => {| call_outcome := Raise e h4; call_trace := t2 |}
                  | Ret updated_config' h4 =>
                      remote_call self final_region method updated_config' hash h4 t2
                  end
              end
            else remote_call self final_region method updated_config "" h3 t1
        end
    end.

(** The structured inputs carry no region: there are none, or they
    count as false, or their string form has no key ["region"]. *)
Definition carries_no_region (inputs : option LiteralMap) : Prop :=
  match inputs with
  | None => True
  | Some lm =>
      literal_map_truthy lm = false
      \/ ~ In "region" (map fst (literal_map_string_repr lm))
  end.

End Call.

(* ================================================================== *)
(** * Vocabulary of the statements *)
(* ================================================================== *)

(** [resolves h v keys v']: indexing [v] by the keys in turn, each step a
    lookup in a dict of the store that has the key, reaches [v']. *)
Inductive resolves (h : heap) : val -> list string -> val -> Prop :=
  | resolves_nil : forall v, resolves h v [] v
  | resolves_cons : forall a d k v keys v',
      deref h a = Some (ODict d) ->
      dict_get k d = Some v ->
      resolves h v keys v' ->
      resolves h (VRef a) (k :: keys) v'.

(** The last [n] characters of [s]. *)
Definition suffix_of_length (n : nat) (s : string) : string :=
  substring (String.length s - n) n s.

(** The first [n] characters of [s]. *)
Definition prefix_of_length (n : nat) (s : string) : string :=
  substring 0 n s.

(* ================================================================== *)
(** * Stores of the examples *)
(* ================================================================== *)

(** The lookup table [{"a": {"b": 5, "c": "mid"}}] at address 0. *)
Definition store_C7 : heap :=
  [ODict [("a", VRef 1)]; ODict [("b", VInt 5); ("c", VStr "mid")]].

(** The lookup table [{"a": {}}] at address 0. *)
Definition store_C2 : heap := [ODict [("a", VRef 1)]; ODict []].

(** A 16-digit token, as [xxh64(...).hexdigest()] gives. *)
Definition token_C5 : string := "0123456789abcdef".

(** A template whose part outside the placeholder has 71 characters. *)
Definition template_C5 : string :=
  "0123456789012345678901234567890123456789012345678901234567890123456789-{idempotence_token}".

(** A template whose part outside the placeholder has 50 characters. *)
Definition pre_C6 : string := "endpoint-".
Definition post_C6 : string := "-0123456789012345678901234567890123456789".
Definition template_C6 : string := pre_C6 ++ "{idempotence_token}" ++ post_C6.

(** The config and the lookup table of the docstring of [update_dict_fn],
    at addresses 0 and 1. *)
Definition store_C1 : heap :=
  [ODict [("EndpointConfigName", VStr "{endpoint_config_name}")];
   ODict [("endpoint_config_name", VStr "my-endpoint-config")]].

(** Two lists (addresses 2 and 4) of the same two dicts; the first dict is
    written [{"a": 1, "z": 2}] in one and [{"z": 2, "a": 1}] in the other. *)
Definition store_C4 : heap :=
  [ODict [("a", VInt 1); ("z", VInt 2)];
   ODict [("m", VInt 0)];
   OList [VRef 0; VRef 1];
   ODict [("z", VInt 2); ("a", VInt 1)];
   OList [VRef 3; VRef 1]].

(** Structural induction on trees, through the lists of children. *)
Section PytreeInduction.
Variable P : pytree -> Prop.
Hypothesis HNone : P TNone.
Hypothesis HBool : forall b, P (TBool b).
Hypothesis HInt : forall z, P (TInt z).
Hypothesis HStr : forall s, P (TStr s).
Hypothesis HList : forall items, Forall P items -> P (TList items).
Hypothesis HDict :
  forall entries, Forall (fun kx => P (snd kx)) entries -> P (TDict entries).

Fixpoint pytree_induction (t : pytree) : P t :=
  match t with
  | TNone => HNone
  | TBool b => HBool b
  | TInt z => HInt z
  | TStr s => HStr s
  | TList items =>
      HList items
        ((fix go (l : list pytree) : Forall P l :=
            match l with
            | [] => Forall_nil P
            | x :: l' => Forall_cons x (pytree_induction x) (go l')
            end) items)
  | TDict entries =>
      HDict entries
        ((fix go (l : list (string * pytree))
            : Forall (fun kx => P (snd kx)) l :=
            match l with
            | [] => Forall_nil _
            | kx :: l' => Forall_cons kx (pytree_induction (snd kx)) (go l')
            end) entries)
  end.
End PytreeInduction.

(** The objects that make up a value when no object is reached twice: the
    container itself, then the objects of its elements in order.  [None]
    when the value nests deeper than [depth] containers. *)
Fixpoint footprint (depth : nat) (h : heap) (v : val) : option (list addr) :=
  match v with
  | VRef a =>
      match depth with
      | O => None
      | S n =>
          match deref h a with
          | Some (OList l) =>
              option_map (fun fps => a :: List.concat fps)
                         (all_some (map (footprint n h) l))
          | Some (ODict d) =>
              option_map (fun fps => a :: List.concat fps)
                         (all_some (map (fun kv => footprint n h (snd kv)) d))
          | None => None
          end
      end
  | _ => Some []
  end.

(** [reaches h v b]: the object at [b] is [v] or is contained in it, at
    any depth. *)
Inductive reaches (h : heap) : val -> addr -> Prop :=
  | reaches_self : forall a o,
      deref h a = Some o -> reaches h (VRef a) a
  | reaches_item : forall a l x b,
      deref h a = Some (OList l) -> In x l -> reaches h x b ->
      reaches h (VRef a) b
  | reaches_entry : forall a d k x b,
      deref h a = Some (ODict d) -> In (k, x) d -> reaches h x b ->
      reaches h (VRef a) b.

(** [h'] has every object of [h], and an object of [h] outside [fp] is the
    same in both. *)
Definition unchanged_outside (fp : list addr) (h h' : heap) : Prop :=
  List.length h <= List.length h'
  /\ forall b, b < List.length h -> ~ In b fp -> deref h' b = deref h b.

(** A mapping [M = {"a": {"b": "x"}, "c": "{a.b}"}] at address 0, to be
    passed as config and as lookup table at once. *)
Definition store_C10 : heap :=
  [ODict [("a", VRef 1); ("c", VStr "{a.b}")]; ODict [("b", VStr "x")]].

(** A config [{"x": D, "y": D}] (address 0) that holds one dict
    [D = {"f": "{a.b}"}] (address 1) twice, and a lookup table
    [{"a": {"b": U}, "p": {"q": "val"}}] (address 2) with
    [U = {"k": "{p.q}"}] (address 4); config and table share no object. *)
Definition store_shared : heap :=
  [ODict [("x", VRef 1); ("y", VRef 1)];
   ODict [("f", VStr "{a.b}")];
   ODict [("a", VRef 3); ("p", VRef 5)];
   ODict [("b", VRef 4)];
   ODict [("k", VStr "{p.q}")];
   ODict [("q", VStr "val")]].

(** The config [{"Name": "{inputs.name}", "Tags": ["{inputs.tag}"]}] at
    address 0 and the lookup table [{"inputs": {"name": "n", "tag": "t"}}]
    at address 2. *)
Definition store_frame : heap :=
  [ODict [("Name", VStr "{inputs.name}"); ("Tags", VRef 1)];
   OList [VStr "{inputs.tag}"];
   ODict [("inputs", VRef 3)];
   ODict [("name", VStr "n"); ("tag", VStr "t")]].

(** [pairwise R l1 l2]: the lists have the same length and [R] relates
    their elements position by position. *)
Definition pairwise {A B : Type} (R : A -> B -> Prop)
  : list A -> list B -> Prop :=
  fix go (l1 : list A) (l2 : list B) : Prop :=
    match l1, l2 with
    | [], [] => True
    | x :: l1', y :: l2' => R x y /\ go l1' l2'
    | _, _ => False
    end.

(** [view h t v]: in the store [h] the value [v] reads as the tree [t]
    (objects may be shared between branches). *)
Fixpoint view (h : heap) (t : pytree) (v : val) {struct t} : Prop :=
  match t with
  | TNone => v = VNone
  | TBool b => v = VBool b
  | TInt z => v = VInt z
  | TStr s => v = VStr s
  | TList items =>
      exists a l, v = VRef a /\ deref h a = Some (OList l)
                  /\ pairwise (view h) items l
  | TDict entries =>
      exists a d, v = VRef a /\ deref h a = Some (ODict d)
                  /\ pairwise (fun kt kv => fst kt = fst kv
                                            /\ view h (snd kt) (snd kv))
                              entries d
  end.

(** No string of the tree has a dotted placeholder token. *)
Fixpoint settled (t : pytree) : bool :=
  match t with
  | TStr s => forallb (fun m => negb (PyStr.contains_char "." m)) (PyStr.findall s)
  | TList items => forallb settled items
  | TDict entries => forallb (fun kt => settled (snd kt)) entries
  | _ => true
  end.

Fixpoint distinct (l : list string) : bool :=
  match l with
  | [] => true
  | k :: l' => negb (existsb (String.eqb k) l') && distinct l'
  end.

(** The keys of every dict of the tree differ, as in a Python dict. *)
Fixpoint well_keyed (t : pytree) : bool :=
  match t with
  | TList items => forallb well_keyed items
  | TDict entries =>
      distinct (map fst entries) && forallb (fun kt => well_keyed (snd kt)) entries
  | _ => true
  end.

(** How deep the containers of a tree nest. *)
Fixpoint tree_depth (t : pytree) : nat :=
  match t with
  | TList items => S (fold_right (fun x m => Nat.max (tree_depth x) m) 0 items)
  | TDict entries =>
      S (fold_right (fun kt m => Nat.max (tree_depth (snd kt)) m) 0 entries)
  | _ => 0
  end.

(** Whatever a value read as in [h], it reads the same in [h']. *)
Definition keeps_views (h h' : heap) : Prop :=
  forall t w, view h t w -> view h' t w.

(** The chain [M = {"a": "{b.c}", "b": {"c": "{d.e}"}, "d": {"e": "x"}}]
    at address 0. *)
Definition store_C8 : heap :=
  [ODict [("a", VStr "{b.c}"); ("b", VRef 1); ("d", VRef 2)];
   ODict [("c", VStr "{d.e}")];
   ODict [("e", VStr "x")]].

(** [M = {"a": "{b.c}", "b": {"c": "x"}, "l": ["{b.c}-1"]}] at address 0. *)
Definition store_settling : heap :=
  [ODict [("a", VStr "{b.c}"); ("b", VRef 1); ("l", VRef 2)];
   ODict [("c", VStr "x")];
   OList [VStr "{b.c}-1"]].

(** The stores after [update_dict_fn(M, M)] has been applied once. *)
Definition store_C8_once : heap :=
  heap_of (update_dict_fn 4 (VRef 0) (VRef 0) None store_C8).

Definition store_settled : heap :=
  heap_of (update_dict_fn 4 (VRef 0) (VRef 0) None store_settling).

(* ================================================================== *)
(** * Vocabulary of the further properties *)
(* ================================================================== *)

(** An idempotency token that [if idempotence_token] takes as absent. *)
Definition token_absent (idempotence_token : option string) : Prop :=
  idempotence_token = None \/ idempotence_token = Some "".

(** A value that a str key cannot index: anything but a dict. *)
Definition not_a_mapping (h : heap) (v : val) : Prop :=
  match v with
  | VRef b => exists l, deref h b = Some (OList l)
  | _ => True
  end.

(** [h'] has the objects of [h]: every list as it was, every dict with the
    same keys in the same order. *)
Definition same_shape (h h' : heap) : Prop :=
  List.length h <= List.length h'
  /\ forall a,
       match deref h a with
       | Some (OList l) => deref h' a = Some (OList l)
       | Some (ODict d) =>
           exists d', deref h' a = Some (ODict d') /\ map fst d' = map fst d
       | None => True
       end.

(** Not a reference: [None], a bool, an int or a str. *)
Definition is_scalar (v : val) : bool :=
  match v with
  | VRef _ => false
  | _ => true
  end.

(** The lookup table [{"a": {"b": "text", "n": None}}] at address 0. *)
Definition store_X5 : heap :=
  [ODict [("a", VRef 1)]; ODict [("b", VStr "text"); ("n", VNone)]].

(** [reordered n h v1 v2]: down to [n] levels of dicts, [v2] is [v1] with
    the entries of dicts written in another order, or with the items of a
    list of scalars in another order; everything else is the same value. *)
Fixpoint reordered (n : nat) (h : heap) (v1 v2 : val) : Prop :=
  v1 = v2
  \/ (exists a1 a2 l1 l2,
         v1 = VRef a1 /\ v2 = VRef a2
         /\ deref h a1 = Some (OList l1) /\ deref h a2 = Some (OList l2)
         /\ forallb is_scalar l1 = true
         /\ Permutation l1 l2)
  \/ match n with
     | O => False
     | S n' =>
         exists a1 a2 d1 d2 d1',
           v1 = VRef a1 /\ v2 = VRef a2
           /\ deref h a1 = Some (ODict d1) /\ deref h a2 = Some (ODict d2)
           /\ NoDup (map fst d1)
           /\ Permutation d1 d1'
           /\ Forall2 (fun e1 e2 => fst e1 = fst e2
                                    /\ reordered n' h (snd e1) (snd e2))
                      d1' d2
     end.

(** [{"a": 1, "b": {"x": [2, 1], "y": None}}] at address 2 and
    [{"b": {"y": None, "x": [1, 2]}, "a": 1}] at address 5. *)
Definition store_X8 : heap :=
  [OList [VInt 2; VInt 1];
   ODict [("x", VRef 0); ("y", VNone)];
   ODict [("a", VInt 1); ("b", VRef 1)];
   OList [VInt 1; VInt 2];
   ODict [("y", VNone); ("x", VRef 3)];
   ODict [("b", VRef 4); ("a", VInt 1)]].

Section CallVocabulary.

Variable LiteralMap : Type.
Variable literal_map_truthy : LiteralMap -> bool.
Variable literal_map_string_repr : LiteralMap -> list (string * pytree).
Variable str_format : string -> list (string * string) -> exn + string.
Variable xxh64_hexdigest : string -> string.
Variable Response : Type.
Variable invoke : string -> val -> string -> val -> heap -> (Response + exn).

(** The inputs carry the region [r]: they count as true and their string
    form has the key ["region"], once, with the str [r]. *)
Definition carries_region (inputs : option LiteralMap) (r : string) : Prop :=
  match inputs with
  | Some lm =>
      literal_map_truthy lm = true
      /\ NoDup (map fst (literal_map_string_repr lm))
      /\ In ("region", TStr r) (literal_map_string_repr lm)
  | None => False
  end.

(** The non-empty region [r] is the first that the inputs, the [region]
    argument and the constructor's default supply, in this order. *)
Definition region_chosen (inputs : option LiteralMap) (region : option string)
    (default : option string) (r : string) : Prop :=
  r <> ""
  /\ (carries_region inputs r
      \/ (carries_no_region LiteralMap literal_map_truthy literal_map_string_repr
                            inputs
          /\ region = Some r)
      \/ (carries_no_region LiteralMap literal_map_truthy literal_map_string_repr
                            inputs
          /\ (region = None \/ region = Some "")
          /\ default = Some r)).

(** Lines 179-214 of [_call], as a function of the region chosen on line
    175, the address of [args] and the store after line 177. *)
Definition call_tail (fuel : nat) (self : Boto3AgentMixin) (method : string)
    (config images final_region : val) (a_args : addr) (h1 : heap)
  : call_result Response :=
  match add_images str_format a_args final_region images h1 with
  | Raise e h2 => {| call_outcome := Raise e h2; call_trace := [] |}
  | Ret _ h2 =>
      let t1 := [EvSubstitute config (VRef a_args) None] in
      match update_dict_fn fuel config (VRef a_args) None h2 with
      | Raise e h3 => {| call_outcome := Raise e h3; call_trace := t1 |}
      | Ret updated_config h3 =>
          if PyStr.contains "idempotence_token" (py_str h3 updated_config) then
            match sorted_dict_str fuel h3 updated_config with
            | inl e => {| call_outcome := Raise e h3; call_trace := t1 |}
            | inr canonical =>
                let hash := xxh64_hexdigest canonical in
                let t2 := (t1 ++ [EvSubstitute updated_config (VRef a_args)
                                               (Some hash)])%list in
                match update_dict_fn fuel updated_config (VRef a_args)
                                     (Some hash) h3 with
                | Raise e h4 => {| call_outcome := Raise e h4; call_trace := t2 |}
                | Ret updated_config' h4 =>
                    remote_call Response invoke self final_region method
                                updated_config' hash h4 t2
                end
            end
          else remote_call Response invoke self final_region method
                           updated_config "" h3 t1
      end
  end.

(** An image that line 188 selects: a str with the marker in it. *)
Definition is_triton_image (image : val) : bool :=
  match image with
  | VStr s => PyStr.contains "sagemaker-tritonserver" s
  | _ => false
  end.

End CallVocabulary.

(** A config [{"EndpointName": "{inputs.name}"}] at address 0 and the
    images dict [{"primary": "{account_id}.dkr.ecr.{region}.{base}/sagemaker-tritonserver:21.08-py3"}]
    at address 1. *)
Definition store_call : heap :=
  [ODict [("EndpointName", VStr "{inputs.name}")];
   ODict [("primary",
           VStr "{account_id}.dkr.ecr.{region}.{base}/sagemaker-tritonserver:21.08-py3")]].

(** An [args] dict at address 0 and the images dict
    [{"primary": "my-image:latest"}] at address 1. *)
Definition store_images : heap :=
  [ODict []; ODict [("primary", VStr "my-image:latest")]].

(* ================================================================== *)
(** * Properties of the string operations *)
(* ================================================================== *)

(** The operations on the strings of the module, on small inputs. *)

Example findall_two :
  PyStr.findall "a{x.y}b{}c{idempotence_token}{open" = ["x.y"; "idempotence_token"].
Proof. reflexivity. Qed.

Example findall_inner_brace : PyStr.findall "{{a}" = ["{a"].
Proof. reflexivity. Qed.

Example findall_empty_then_close : PyStr.findall "{}}" = [].
Proof. reflexivity. Qed.

Example split_dot_empty_segment : PyStr.split_dot "a..b" = ["a"; ""; "b"].
Proof. reflexivity. Qed.

Example replace_every_occurrence :
  PyStr.replace "x{a}y{a}{a" "{a}" "12" = "x12y12{a".
Proof. reflexivity. Qed.

Example slice_to_negative : PyStr.slice_to "0123456789" (-3) = "0123456".
Proof. reflexivity. Qed.

Example str_of_Z_signs : PyStr.str_of_Z (-50) = "-50" /\ PyStr.str_of_Z 0 = "0".
Proof. split; reflexivity. Qed.

Example py_str_nested :
  py_str store_C7 (VRef 0) = "{'a': {'b': 5, 'c': 'mid'}}".
Proof. reflexivity. Qed.

Lemma append_assoc (a b c : string) : (a ++ b) ++ c = a ++ (b ++ c).
Proof. induction a as [|x a IH]; simpl; [reflexivity | now rewrite IH]. Qed.

Lemma append_nil_r (a : string) : a ++ "" = a.
Proof. induction a as [|x a IH]; simpl; [reflexivity | now rewrite IH]. Qed.

Lemma length_append (a b : string) :
  String.length (a ++ b) = String.length a + String.length b.
Proof. induction a as [|x a IH]; simpl; [reflexivity | now rewrite IH]. Qed.

Lemma braced_cons (m post : string) :
  PyStr.braced m ++ post = String "{" (m ++ String "}" post).
Proof. unfold PyStr.braced. simpl. now rewrite append_assoc. Qed.

Lemma contains_char_app (c : ascii) (a b : string) :
  PyStr.contains_char c (a ++ b) = PyStr.contains_char c a || PyStr.contains_char c b.
Proof.
  induction a as [|x a IH]; simpl; [reflexivity|].
  now rewrite IH, orb_assoc.
Qed.

Lemma span_not_close_app (g post : string) :
  PyStr.contains_char "}" g = false ->
  PyStr.span_not_close (g ++ String "}" post) = (g, String "}" post).
Proof.
  induction g as [|x g IH]; simpl; intros H; [reflexivity|].
  apply orb_false_iff in H as [Hx Hg].
  rewrite Hx, (IH Hg). reflexivity.
Qed.

Lemma findall_from_skip (x y : string) :
  PyStr.findall_from (String.length x) (x ++ y) = PyStr.findall_from 0 y.
Proof. induction x as [|c x IH]; simpl; [reflexivity | exact IH]. Qed.

Lemma findall_no_open (s : string) :
  PyStr.contains_char "{" s = false -> PyStr.findall_from 0 s = [].
Proof.
  induction s as [|c s IH]; simpl; intros H; [reflexivity|].
  apply orb_false_iff in H as [Hc Hs].
  rewrite Hc. auto.
Qed.

(** The first placeholder of a string: nothing before it opens a brace. *)
Lemma findall_placeholder (pre g post : string) :
  PyStr.contains_char "{" pre = false ->
  g <> "" ->
  PyStr.contains_char "}" g = false ->
  PyStr.findall (pre ++ PyStr.braced g ++ post) = g :: PyStr.findall post.
Proof.
  intros Hpre Hg Hclose. unfold PyStr.findall.
  rewrite braced_cons.
  induction pre as [|c pre IH].
  - cbn [append PyStr.findall_from Ascii.eqb Bool.eqb].
    rewrite (span_not_close_app g post Hclose).
    destruct g as [|g0 g]; [congruence|].
    f_equal.
    replace (String g0 g ++ String "}" post)
      with ((String g0 g ++ "}") ++ post)
      by (rewrite append_assoc; reflexivity).
    replace (S (String.length (String g0 g)))
      with (String.length (String g0 g ++ "}"))
      by (rewrite length_append; simpl; lia).
    apply findall_from_skip.
  - simpl in Hpre. apply orb_false_iff in Hpre as [Hc Hp].
    cbn [append PyStr.findall_from].
    rewrite Hc. auto.
Qed.

Lemma prefix_app (p s : string) : prefix p (p ++ s) = true.
Proof.
  induction p as [|c p IH]; simpl; [destruct s; reflexivity|].
  destruct (ascii_dec c c); [exact IH | congruence].
Qed.

Lemma prefix_head_neq (c x : ascii) (p s : string) :
  Ascii.eqb x c = false -> prefix (String c p) (String x s) = false.
Proof.
  intros H. simpl. destruct (ascii_dec c x) as [->|]; [|reflexivity].
  now rewrite Ascii.eqb_refl in H.
Qed.

Lemma replace_from_skip (old new x y : string) :
  PyStr.replace_from old new (String.length x) (x ++ y)
  = PyStr.replace_from old new 0 y.
Proof. induction x as [|c x IH]; simpl; [reflexivity | exact IH]. Qed.

Lemma replace_from_no_head (c : ascii) (old new s : string) :
  PyStr.contains_char c s = false ->
  PyStr.replace_from (String c old) new 0 s = s.
Proof.
  induction s as [|x s IH]; intros H; [reflexivity|].
  simpl in H. apply orb_false_iff in H as [Hx Hs].
  cbn [PyStr.replace_from].
  rewrite (prefix_head_neq c x old s Hx), (IH Hs). reflexivity.
Qed.

(** A placeholder between two brace-free parts is its only occurrence. *)
Lemma replace_placeholder (pre g post new : string) :
  PyStr.contains_char "{" pre = false ->
  PyStr.contains_char "{" post = false ->
  PyStr.replace (pre ++ PyStr.braced g ++ post) (PyStr.braced g) new
  = pre ++ new ++ post.
Proof.
  intros Hpre Hpost.
  change (PyStr.braced g) with (String "{" (g ++ "}")).
  unfold PyStr.replace.
  induction pre as [|c pre IH].
  - cbn [append PyStr.replace_from].
    change (String "{" ((g ++ "}") ++ post))
      with (String "{" (g ++ "}") ++ post).
    rewrite prefix_app. f_equal.
    cbn [String.length]. rewrite Nat.sub_succ, Nat.sub_0_r.
    rewrite replace_from_skip.
    apply replace_from_no_head, Hpost.
  - simpl in Hpre. apply orb_false_iff in Hpre as [Hc Hp].
    cbn [append PyStr.replace_from].
    rewrite (prefix_head_neq "{" c (g ++ "}") _ Hc).
    f_equal. apply IH, Hp.
Qed.

Lemma contains_char_braced (g : string) :
  PyStr.contains_char "{" (PyStr.braced g) = true
  /\ PyStr.contains_char "}" (PyStr.braced g) = true.
Proof.
  unfold PyStr.braced. split; [reflexivity|].
  simpl. rewrite contains_char_app. simpl. apply orb_true_r.
Qed.

Lemma split_dot_nonempty (s : string) : PyStr.split_dot s <> [].
Proof.
  destruct s as [|c s]; simpl; [discriminate|].
  destruct (Ascii.eqb c "."); [discriminate|].
  destruct (PyStr.split_dot s); discriminate.
Qed.

Lemma dotted_nonempty (g : string) : PyStr.contains_char "." g = true -> g <> "".
Proof. intros H ->. discriminate. Qed.

(* ================================================================== *)
(** * Properties of the store *)
(* ================================================================== *)

Lemma deref_app_old (h ext : heap) (a : addr) (o : obj) :
  deref h a = Some o -> deref (h ++ ext)%list a = Some o.
Proof.
  unfold deref. intros H.
  rewrite nth_error_app1; [exact H|].
  apply nth_error_Some. congruence.
Qed.

Lemma deref_alloc_new (h : heap) (o : obj) :
  deref (h ++ [o])%list (List.length h) = Some o.
Proof.
  unfold deref. rewrite nth_error_app2, Nat.sub_diag; [reflexivity | lia].
Qed.

Lemma resolves_extend (h ext : heap) (v v' : val) (keys : list string) :
  resolves h v keys v' -> resolves (h ++ ext)%list v keys v'.
Proof.
  induction 1 as [v|a d k v keys v' Ha Hk _ IH]; [constructor|].
  eapply resolves_cons; eauto using deref_app_old.
Qed.

(** The traversal of the copy reaches what the path resolves to in the
    table itself: the copy is shallow. *)
Lemma resolves_from_copy (h : heap) (a : addr) (d : list (string * val))
    (k : string) (keys : list string) (v' : val) :
  deref h a = Some (ODict d) ->
  resolves h (VRef a) (k :: keys) v' ->
  resolves (h ++ [ODict d])%list (VRef (List.length h)) (k :: keys) v'.
Proof.
  intros Ha Hres. inversion Hres as [|a0 d0 k0 v keys0 v0 Ha0 Hk Hrest]; subst.
  assert (d0 = d) by congruence. subst d0.
  eapply resolves_cons; [apply deref_alloc_new | exact Hk |].
  now apply resolves_extend.
Qed.

Lemma traverse_resolves (h : heap) (v v' : val) (keys : list string) :
  resolves h v keys v' -> traverse h v keys = inr v'.
Proof.
  induction 1 as [v|a d k v keys v' Ha Hk _ IH]; [reflexivity|].
  simpl. now rewrite Ha, Hk.
Qed.

Lemma traverse_missing (h : heap) (v : val) (ks1 ks2 : list string)
    (k : string) (b : addr) (db : list (string * val)) :
  resolves h v ks1 (VRef b) ->
  deref h b = Some (ODict db) ->
  dict_get k db = None ->
  traverse h v (ks1 ++ k :: ks2)
  = inl (ValueError ("Could not find the key " ++ k ++ " in "
                     ++ py_str h (VRef b) ++ ".")).
Proof.
  intros Hres Hb Hk. remember (VRef b) as vb eqn:E.
  induction Hres as [v|a d k1 v keys v' Ha Hk1 _ IH]; subst.
  - cbn [app traverse subscript]. now rewrite Hb, Hk.
  - cbn [app traverse subscript]. rewrite Ha, Hk1. now apply IH.
Qed.

(* ================================================================== *)
(** * The str branch of [update_dict_fn] *)
(* ================================================================== *)

Lemma update_dict_fn_str (fuel : nat) (s : string) (u : val)
    (tok : option string) (h : heap) :
  update_dict_fn (S fuel) (VStr s) u tok h = update_str s u tok h.
Proof. reflexivity. Qed.

Lemma update_str_first_placeholder (pre g post : string) (u : val)
    (tok : option string) (h : heap) :
  PyStr.contains_char "{" pre = false ->
  g <> "" ->
  PyStr.contains_char "}" g = false ->
  update_str (pre ++ PyStr.braced g ++ post) u tok h
  = subst_matches (g :: PyStr.findall post) (pre ++ PyStr.braced g ++ post) u tok h.
Proof.
  intros Hpre Hg Hclose. unfold update_str.
  rewrite !contains_char_app.
  destruct (contains_char_braced g) as [-> ->].
  cbn [orb]. rewrite !orb_true_r. cbn [andb].
  now rewrite findall_placeholder.
Qed.

Lemma braced_not_embedded (pre g post : string) :
  pre ++ post <> "" ->
  String.eqb (PyStr.braced g) (pre ++ PyStr.braced g ++ post) = false.
Proof.
  intros Hne. apply String.eqb_neq. intros E.
  apply (f_equal String.length) in E.
  rewrite !length_append in E.
  assert (String.length (pre ++ post) <> 0).
  { destruct (pre ++ post); [congruence | simpl; lia]. }
  rewrite length_append in H. lia.
Qed.

(** ** C7 *)

(** C7: a string that is exactly one dotted placeholder ["{path}"] (the
    path, a chain of identifiers, has no closing brace), with a lookup
    table in which the path resolves to a value [v] of any type, is
    substituted by [v] itself: the value, not its string form.  (The
    table's shallow copy is the only change of the store.) *)
Theorem C7_full_placeholder_keeps_value (fuel : nat) (path : string)
    (a : addr) (d : list (string * val)) (v : val) (tok : option string)
    (h : heap) :
  PyStr.contains_char "." path = true ->
  PyStr.contains_char "}" path = false ->
  deref h a = Some (ODict d) ->
  resolves h (VRef a) (PyStr.split_dot path) v ->
  update_dict_fn (S fuel) (VStr (PyStr.braced path)) (VRef a) tok h
  = Ret v (h ++ [ODict d])%list.
Proof.
  intros Hdot Hclose Ha Hres.
  rewrite update_dict_fn_str.
  pose proof (update_str_first_placeholder "" path "" (VRef a) tok h
                eq_refl (dotted_nonempty path Hdot) Hclose) as E.
  cbn [append] in E. rewrite append_nil_r in E. rewrite E.
  cbn [subst_matches]. rewrite Hdot.
  unfold py_copy, alloc. rewrite Ha.
  destruct (PyStr.split_dot path) as [|k keys] eqn:Ek;
    [now apply split_dot_nonempty in Ek|].
  rewrite (traverse_resolves _ _ _ _ (resolves_from_copy h a d k keys v Ha Hres)).
  now rewrite String.eqb_refl.
Qed.

Lemma C7_witness :
  update_dict_fn 3 (VStr "{a.b}") (VRef 0) None store_C7
  = Ret (VInt 5) (store_C7 ++ [ODict [("a", VRef 1)]])%list.
Proof.
  apply (C7_full_placeholder_keeps_value 2 "a.b" 0 [("a", VRef 1)] (VInt 5)
           None store_C7).
  - reflexivity.
  - reflexivity.
  - reflexivity.
  - eapply resolves_cons; [reflexivity | reflexivity |].
    eapply resolves_cons; [reflexivity | reflexivity |].
    apply resolves_nil.
Defined.

(** ** C3 *)

(** C3, as stated, fails: the placeholder of ["pre-{a.b}-post"] resolves to
    the integer 5, and [str.replace] refuses a replacement that is not a
    str; nothing is spliced. *)
Lemma C3_counterexample :
  update_dict_fn 3 (VStr "pre-{a.b}-post") (VRef 0) None store_C7
  = Raise (TypeError "replace() argument 2 must be str, not int")
          (store_C7 ++ [ODict [("a", VRef 1)]])%list
  /\ ~ (exists h', update_dict_fn 3 (VStr "pre-{a.b}-post") (VRef 0) None store_C7
                   = Ret (VStr "pre-5-post") h').
Proof.
  split; [reflexivity|].
  intros [h' H]. vm_compute in H. discriminate H.
Qed.

(** C3 (amended): a dotted placeholder embedded in a longer string, with
    no other brace around it, whose path resolves to a str [r]: the result
    is the string with [r] in the placeholder's place and the rest
    unchanged. *)
Theorem C3_embedded_placeholder_spliced (fuel : nat) (pre path post r : string)
    (a : addr) (d : list (string * val)) (tok : option string) (h : heap) :
  PyStr.contains_char "{" pre = false ->
  PyStr.contains_char "{" post = false ->
  pre ++ post <> "" ->
  PyStr.contains_char "." path = true ->
  PyStr.contains_char "}" path = false ->
  deref h a = Some (ODict d) ->
  resolves h (VRef a) (PyStr.split_dot path) (VStr r) ->
  update_dict_fn (S fuel) (VStr (pre ++ PyStr.braced path ++ post)) (VRef a) tok h
  = Ret (VStr (pre ++ r ++ post)) (h ++ [ODict d])%list.
Proof.
  intros Hpre Hpost Hne Hdot Hclose Ha Hres.
  rewrite update_dict_fn_str.
  rewrite (update_str_first_placeholder pre path post (VRef a) tok h
             Hpre (dotted_nonempty path Hdot) Hclose).
  unfold PyStr.findall. rewrite (findall_no_open post Hpost).
  cbn [subst_matches]. rewrite Hdot.
  unfold py_copy, alloc. rewrite Ha.
  destruct (PyStr.split_dot path) as [|k keys] eqn:Ek;
    [now apply split_dot_nonempty in Ek|].
  rewrite (traverse_resolves _ _ _ _ (resolves_from_copy h a d k keys _ Ha Hres)).
  rewrite (braced_not_embedded pre path post Hne).
  now rewrite (replace_placeholder pre path post r Hpre Hpost).
Qed.

Lemma C3_witness :
  update_dict_fn 3 (VStr "pre-{a.c}-post") (VRef 0) None store_C7
  = Ret (VStr "pre-mid-post") (store_C7 ++ [ODict [("a", VRef 1)]])%list.
Proof.
  apply (C3_embedded_placeholder_spliced 2 "pre-" "a.c" "-post" "mid" 0
           [("a", VRef 1)] None store_C7).
  - reflexivity.
  - reflexivity.
  - discriminate.
  - reflexivity.
  - reflexivity.
  - reflexivity.
  - eapply resolves_cons; [reflexivity | reflexivity |].
    eapply resolves_cons; [reflexivity | reflexivity |].
    apply resolves_nil.
Defined.

(** ** C2 *)

(** C2, as stated, fails on the class of the error: at the spec's own
    example the exception is a [ValueError], which is not a
    [LookupError]. *)
Lemma C2_counterexample :
  update_dict_fn 3 (VStr "{a.missing}") (VRef 0) None store_C2
  = Raise (ValueError "Could not find the key missing in {}.")
          (store_C2 ++ [ODict [("a", VRef 1)]])%list
  /\ ~ (exists e h', update_dict_fn 3 (VStr "{a.missing}") (VRef 0) None store_C2
                     = Raise e h'
                     /\ is_LookupError e = true).
Proof.
  split; [reflexivity|].
  intros (e & h' & H & Hc). vm_compute in H.
  injection H as <- _. discriminate Hc.
Qed.

(** C2 (amended): when the first placeholder of a string is dotted and a
    key [k] of its path is absent from the dict that the keys before it
    reach, [update_dict_fn] raises a [ValueError] (not a [LookupError])
    whose message names [k] and prints that dict. *)
Theorem C2_missing_key_raises_ValueError (fuel : nat) (pre path post : string)
    (ks1 ks2 : list string) (k : string) (a b : addr)
    (d db : list (string * val)) (tok : option string) (h : heap) :
  PyStr.contains_char "{" pre = false ->
  PyStr.contains_char "." path = true ->
  PyStr.contains_char "}" path = false ->
  PyStr.split_dot path = (ks1 ++ k :: ks2)%list ->
  deref h a = Some (ODict d) ->
  resolves h (VRef a) ks1 (VRef b) ->
  deref h b = Some (ODict db) ->
  dict_get k db = None ->
  exists (p : addr) (e : exn),
    update_dict_fn (S fuel) (VStr (pre ++ PyStr.braced path ++ post)) (VRef a) tok h
    = Raise e (h ++ [ODict d])%list
    /\ e = ValueError ("Could not find the key " ++ k ++ " in "
                       ++ py_str (h ++ [ODict d])%list (VRef p) ++ ".")
    /\ deref (h ++ [ODict d])%list p = Some (ODict db)
    /\ is_ValueError e = true
    /\ is_LookupError e = false.
Proof.
  intros Hpre Hdot Hclose Hsplit Ha Hres Hb Hk.
  rewrite update_dict_fn_str.
  rewrite (update_str_first_placeholder pre path post (VRef a) tok h
             Hpre (dotted_nonempty path Hdot) Hclose).
  cbn [subst_matches]. rewrite Hdot.
  unfold py_copy, alloc. rewrite Ha, Hsplit.
  set (h1 := (h ++ [ODict d])%list).
  destruct ks1 as [|k1 ks1].
  - inversion Hres; subst.
    assert (db = d) by congruence. subst db.
    exists (List.length h), (ValueError ("Could not find the key " ++ k ++ " in "
                       ++ py_str h1 (VRef (List.length h)) ++ ".")).
    rewrite (traverse_missing h1 (VRef (List.length h)) [] ks2 k (List.length h) d
               (resolves_nil _ _) (deref_alloc_new h (ODict d)) Hk).
    repeat split. apply deref_alloc_new.
  - exists b, (ValueError ("Could not find the key " ++ k ++ " in "
                       ++ py_str h1 (VRef b) ++ ".")).
    rewrite (traverse_missing h1 (VRef (List.length h)) (k1 :: ks1) ks2 k b db
               (resolves_from_copy h a d k1 ks1 _ Ha Hres)
               (deref_app_old h _ b _ Hb) Hk).
    repeat split. apply (deref_app_old h _ b _ Hb).
Qed.

Lemma C2_witness :
  exists (p : addr) (e : exn),
    update_dict_fn 3 (VStr "x-{a.missing.z}-{y") (VRef 0) None store_C2
    = Raise e (store_C2 ++ [ODict [("a", VRef 1)]])%list
    /\ e = ValueError ("Could not find the key " ++ "missing" ++ " in "
                       ++ py_str (store_C2 ++ [ODict [("a", VRef 1)]])%list (VRef p) ++ ".")
    /\ deref (store_C2 ++ [ODict [("a", VRef 1)]])%list p = Some (ODict [])
    /\ is_ValueError e = true
    /\ is_LookupError e = false.
Proof.
  apply (C2_missing_key_raises_ValueError 2 "x-" "a.missing.z" "-{y"
           ["a"] ["z"] "missing" 0 1 [("a", VRef 1)] [] None store_C2).
  - reflexivity.
  - reflexivity.
  - reflexivity.
  - reflexivity.
  - reflexivity.
  - eapply resolves_cons; [reflexivity | reflexivity |]. apply resolves_nil.
  - reflexivity.
  - reflexivity.
Defined.

(** ** C5 and C6: the idempotency token *)

Lemma length_substring_0 (n : nat) (s : string) :
  n <= String.length s -> String.length (substring 0 n s) = n.
Proof.
  revert n. induction s as [|c s IH]; intros [|n] H; simpl in *;
    try reflexivity; try lia.
  rewrite IH; lia.
Qed.

Lemma replace_token_placeholder (pre post new : string) :
  PyStr.contains_char "{" pre = false ->
  PyStr.contains_char "{" post = false ->
  PyStr.replace (pre ++ "{idempotence_token}" ++ post) "{idempotence_token}" new
  = pre ++ new ++ post.
Proof. apply (replace_placeholder pre "idempotence_token" post new). Qed.

(** The string that lines 100-106 produce when the token has to be cut: the
    first [63 - len(rest)] characters of the token go in. *)
Lemma update_str_token_truncated (pre post t : string) (u : val) (h : heap) :
  PyStr.contains_char "{" pre = false ->
  PyStr.contains_char "{" post = false ->
  String.length (pre ++ post) <= 63 ->
  63 < String.length (pre ++ t ++ post) ->
  update_str (pre ++ "{idempotence_token}" ++ post) u (Some t) h
  = Ret (VStr (pre ++ prefix_of_length (63 - String.length (pre ++ post)) t ++ post)) h.
Proof.
  intros Hpre Hpost Hrest Hlong.
  rewrite length_append in Hrest. rewrite !length_append in Hlong.
  assert (Ht : String.eqb t "" = false).
  { apply String.eqb_neq. intros ->. simpl in Hlong. lia. }
  change "{idempotence_token}" with (PyStr.braced "idempotence_token") at 1.
  rewrite (update_str_first_placeholder pre "idempotence_token" post u (Some t) h
             Hpre ltac:(discriminate) eq_refl).
  unfold PyStr.findall. rewrite (findall_no_open post Hpost).
  cbn [subst_matches].
  change (PyStr.contains_char "." "idempotence_token") with false.
  cbv iota. unfold token_applies.
  change (String.eqb "idempotence_token" "idempotence_token") with true.
  rewrite Ht. cbn [negb andb].
  change (PyStr.braced "idempotence_token") with "{idempotence_token}".
  rewrite !replace_token_placeholder by assumption.
  unfold PyStr.len. rewrite !length_append. cbn [append String.length].
  replace (63 <? Z.of_nat (String.length pre + (String.length t + String.length post)))%Z
    with true by (symmetry; apply Z.ltb_lt; lia).
  unfold PyStr.slice_to, PyStr.len, prefix_of_length.
  replace (63 - Z.of_nat (String.length pre + (0 + String.length post)) <? 0)%Z
    with false by (symmetry; apply Z.ltb_ge; lia).
  rewrite Z.min_l by lia.
  do 4 f_equal.
  replace (Z.to_nat (63 - Z.of_nat (String.length pre + (0 + String.length post))))
    with (63 - (String.length pre + String.length post)) by lia.
  reflexivity.
Qed.

(** C5, as stated, fails: when the part of the string outside the
    placeholder is itself longer than 63 characters, the slice bound is
    negative, the token loses its last characters and the result is
    longer than 63. *)
Lemma C5_counterexample :
  PyStr.contains "{idempotence_token}" template_C5 = true
  /\ (63 < PyStr.len (PyStr.replace template_C5 "{idempotence_token}" token_C5))%Z
  /\ update_dict_fn 3 (VStr template_C5) VNone (Some token_C5) []
     = Ret (VStr "0123456789012345678901234567890123456789012345678901234567890123456789-01234567") []
  /\ ~ (exists s h', update_dict_fn 3 (VStr template_C5) VNone (Some token_C5) []
                     = Ret (VStr s) h'
                     /\ String.length s = 63).
Proof.
  split; [reflexivity|]. split; [reflexivity|]. split; [reflexivity|].
  intros (s & h' & H & Hlen). vm_compute in H.
  injection H as <- _. vm_compute in Hlen. discriminate Hlen.
Qed.

(** C5 (amended): a string with one [{idempotence_token}] placeholder and no
    other opening brace, whose part outside the placeholder has at most 63
    characters, and a token that would make it longer than 63: the result
    has exactly 63 characters. *)
Theorem C5_truncated_result_has_length_63 (fuel : nat) (pre post t : string)
    (u : val) (h : heap) :
  PyStr.contains_char "{" pre = false ->
  PyStr.contains_char "{" post = false ->
  String.length (pre ++ post) <= 63 ->
  63 < String.length (pre ++ t ++ post) ->
  exists s,
    update_dict_fn (S fuel) (VStr (pre ++ "{idempotence_token}" ++ post)) u (Some t) h
    = Ret (VStr s) h
    /\ String.length s = 63.
Proof.
  intros Hpre Hpost Hrest Hlong.
  rewrite update_dict_fn_str, update_str_token_truncated by assumption.
  eexists. split; [reflexivity|].
  unfold prefix_of_length.
  rewrite !length_append in *.
  rewrite length_substring_0; lia.
Qed.

Lemma C5_witness :
  exists s,
    update_dict_fn 3 (VStr (pre_C6 ++ "{idempotence_token}" ++ post_C6)) VNone
      (Some token_C5) []
    = Ret (VStr s) []
    /\ String.length s = 63.
Proof.
  apply (C5_truncated_result_has_length_63 2 pre_C6 post_C6 token_C5 VNone []).
  - reflexivity.
  - reflexivity.
  - vm_compute. lia.
  - vm_compute. lia.
Defined.

(** C6, as stated, fails: the characters inserted are the first 13 of the
    token, not its last 13. *)
Lemma C6_counterexample :
  update_dict_fn 3 (VStr template_C6) VNone (Some token_C5) []
  = Ret (VStr (pre_C6 ++ "0123456789abc" ++ post_C6)) []
  /\ suffix_of_length 13 token_C5 = "3456789abcdef"
  /\ ~ (exists h', update_dict_fn 3 (VStr template_C6) VNone (Some token_C5) []
                   = Ret (VStr (pre_C6 ++ suffix_of_length 13 token_C5 ++ post_C6)) h').
Proof.
  split; [reflexivity|]. split; [reflexivity|].
  intros (h' & H). vm_compute in H. discriminate H.
Qed.

(** C6 (amended): when the token has to be cut, the part inserted is the
    prefix of the token of length 63 minus the length of the string with
    the placeholder removed: the token is cut at its end and keeps its
    leading characters. *)
Theorem C6_truncation_keeps_prefix (fuel : nat) (pre post t : string)
    (u : val) (h : heap) :
  PyStr.contains_char "{" pre = false ->
  PyStr.contains_char "{" post = false ->
  String.length (pre ++ post) <= 63 ->
  63 < String.length (pre ++ t ++ post) ->
  update_dict_fn (S fuel) (VStr (pre ++ "{idempotence_token}" ++ post)) u (Some t) h
  = Ret (VStr (pre
               ++ prefix_of_length
                    (63 - String.length
                            (PyStr.replace (pre ++ "{idempotence_token}" ++ post)
                                           "{idempotence_token}" "")) t
               ++ post)) h.
Proof.
  intros Hpre Hpost Hrest Hlong.
  rewrite update_dict_fn_str, update_str_token_truncated by assumption.
  now rewrite replace_token_placeholder by assumption.
Qed.

Lemma C6_witness :
  update_dict_fn 3 (VStr (pre_C6 ++ "{idempotence_token}" ++ post_C6)) VNone
    (Some token_C5) []
  = Ret (VStr (pre_C6
               ++ prefix_of_length
                    (63 - String.length
                            (PyStr.replace (pre_C6 ++ "{idempotence_token}" ++ post_C6)
                                           "{idempotence_token}" "")) token_C5
               ++ post_C6)) [].
Proof.
  apply (C6_truncation_keeps_prefix 2 pre_C6 post_C6 token_C5 VNone []).
  - reflexivity.
  - reflexivity.
  - vm_compute. lia.
  - vm_compute. lia.
Defined.

(* ================================================================== *)
(** * C1: the example of the docstring *)
(* ================================================================== *)

(** C1 (code defect): at the input of the docstring's example,
    [update_dict_fn] returns the config as it was.  The token
    [endpoint_config_name] has no dot and is not [idempotence_token], so
    neither branch of the loop over the matches applies, and the string
    ["{endpoint_config_name}"] stays; the docstring and the claim promise
    ["my-endpoint-config"]. *)
Theorem C1_undotted_placeholder_is_not_resolved :
  snapshot 1 store_C1 (VRef 0)
  = Some (TDict [("EndpointConfigName", TStr "{endpoint_config_name}")])
  /\ snapshot 1 store_C1 (VRef 1)
     = Some (TDict [("endpoint_config_name", TStr "my-endpoint-config")])
  /\ update_dict_fn 3 (VRef 0) (VRef 1) None store_C1 = Ret (VRef 0) store_C1
  /\ snapshot 1 store_C1 (VRef 0)
     <> Some (TDict [("EndpointConfigName", TStr "my-endpoint-config")]).
Proof. repeat split; try reflexivity. discriminate. Qed.

(* ================================================================== *)
(** * C4: [sorted_dict_str] and the order of insertion *)
(* ================================================================== *)

(** C4 (code defect): two lists with the same elements, one element being
    the same mapping written in two insertion orders, get different
    canonical strings.  The sort key of a list element is [str(x)], which
    for a dict follows the insertion order, so the two lists are sorted
    differently before their elements are rendered. *)
Theorem C4_canonical_string_depends_on_insertion_order :
  snapshot 2 store_C4 (VRef 2)
  = Some (TList [TDict [("a", TInt 1); ("z", TInt 2)]; TDict [("m", TInt 0)]])
  /\ snapshot 2 store_C4 (VRef 4)
     = Some (TList [TDict [("z", TInt 2); ("a", TInt 1)]; TDict [("m", TInt 0)]])
  /\ sorted_dict_str 4 store_C4 (VRef 2) = inr "[{a: 1, z: 2}, {m: 0}]"
  /\ sorted_dict_str 4 store_C4 (VRef 4) = inr "[{m: 0}, {a: 1, z: 2}]"
  /\ sorted_dict_str 4 store_C4 (VRef 2) <> sorted_dict_str 4 store_C4 (VRef 4).
Proof. repeat split; try reflexivity. discriminate. Qed.

(* ================================================================== *)
(** * Allocation and assignment in the store *)
(* ================================================================== *)

Lemma length_set_nth {A : Type} (i : nat) (x : A) (l : list A) :
  List.length (set_nth i x l) = List.length l.
Proof.
  revert i. induction l as [|y l IH]; intros [|i]; simpl; auto.
Qed.

Lemma nth_error_set_nth_eq {A : Type} (i : nat) (x : A) (l : list A) :
  i < List.length l -> nth_error (set_nth i x l) i = Some x.
Proof.
  revert i. induction l as [|y l IH]; intros [|i] H; simpl in *; try lia; auto.
  apply IH. lia.
Qed.

Lemma nth_error_set_nth_neq {A : Type} (i j : nat) (x : A) (l : list A) :
  i <> j -> nth_error (set_nth i x l) j = nth_error l j.
Proof.
  revert i j. induction l as [|y l IH]; intros [|i] [|j] H; simpl; auto.
  congruence.
Qed.

Lemma deref_store_item_other (h : heap) (a b : addr) (k : string) (v : val) :
  a <> b -> deref (store_item h a k v) b = deref h b.
Proof.
  intros Hab. unfold store_item.
  destruct (deref h a) as [[l|d]|]; try reflexivity.
  unfold deref. now apply nth_error_set_nth_neq.
Qed.

Lemma length_store_item (h : heap) (a : addr) (k : string) (v : val) :
  List.length (store_item h a k v) = List.length h.
Proof.
  unfold store_item. destruct (deref h a) as [[l|d]|]; try reflexivity.
  apply length_set_nth.
Qed.

Lemma deref_lt (h : heap) (a : addr) (o : obj) :
  deref h a = Some o -> a < List.length h.
Proof. unfold deref. intros H. apply nth_error_Some. congruence. Qed.

Lemma deref_app_lt (h ext : heap) (a : addr) :
  a < List.length h -> deref (h ++ ext)%list a = deref h a.
Proof. intros H. unfold deref. now rewrite nth_error_app1. Qed.

Lemma alloc_each_extends {A B : Type} (f : A -> heap -> B * heap)
    (P : A -> Prop) :
  (forall x h, P x -> exists ext, snd (f x h) = (h ++ ext)%list) ->
  forall l h, Forall P l ->
    exists ext, snd (alloc_each f l h) = (h ++ ext)%list.
Proof.
  intros Hf l. induction l as [|x l IH]; intros h Hl.
  - exists []. simpl. now rewrite app_nil_r.
  - inversion Hl as [|x0 l0 Hx Hl']; subst.
    cbn [alloc_each].
    destruct (Hf x h Hx) as [e1 E1].
    destruct (f x h) as [v h1]. simpl in E1. subst h1.
    destruct (IH (h ++ e1)%list Hl') as [e2 E2].
    destruct (alloc_each f l (h ++ e1)%list) as [vs h2]. simpl in E2. subst h2.
    exists (e1 ++ e2)%list. simpl. now rewrite app_assoc.
Qed.

(** Building a tree only adds objects at the end of the store. *)
Lemma alloc_tree_extends (t : pytree) :
  forall h, exists ext, snd (alloc_tree t h) = (h ++ ext)%list.
Proof.
  induction t as [| | | |items IH|entries IH] using pytree_induction; intros h;
    try (exists []; simpl; now rewrite app_nil_r).
  - cbn [alloc_tree].
    destruct (alloc_each_extends alloc_tree _
                (fun x h Hx => Hx h) items h IH) as [e E].
    destruct (alloc_each alloc_tree items h) as [vs h1]. simpl in E. subst h1.
    exists (e ++ [OList vs])%list. simpl. now rewrite app_assoc.
  - cbn [alloc_tree].
    set (f := fun (kx : string * pytree) (h0 : heap) =>
                let (v, h1) := alloc_tree (snd kx) h0 in ((fst kx, v), h1)).
    assert (Hf : forall kx h0,
               (forall h1, exists ext, snd (alloc_tree (snd kx) h1) = (h1 ++ ext)%list) ->
               exists ext, snd (f kx h0) = (h0 ++ ext)%list).
    { intros kx h0 Hkx. destruct (Hkx h0) as [e E]. exists e.
      unfold f. destruct (alloc_tree (snd kx) h0). exact E. }
    destruct (alloc_each_extends f _ Hf entries h IH) as [e E].
    destruct (alloc_each f entries h) as [es h1]. simpl in E. subst h1.
    eexists (e ++ [_])%list. simpl. now rewrite app_assoc.
Qed.

Lemma alloc_each_keys (entries : list (string * pytree)) (h : heap) :
  map fst (fst (alloc_each
                  (fun kx h0 => let (v, h1) := alloc_tree (snd kx) h0 in
                                ((fst kx, v), h1)) entries h))
  = map fst entries.
Proof.
  revert h. induction entries as [|kx l IH]; intros h; [reflexivity|].
  cbn [alloc_each].
  destruct (alloc_tree (snd kx) h) as [v h1].
  specialize (IH h1).
  destruct (alloc_each _ l h1) as [es h2].
  simpl in *. now rewrite IH.
Qed.

Lemma dict_get_set_other (k k' : string) (v : val) (d : list (string * val)) :
  k <> k' -> dict_get k (dict_set k' v d) = dict_get k d.
Proof.
  intros Hne. induction d as [|[k0 v0] d IH]; simpl.
  - destruct (String.eqb_spec k' k); [congruence | reflexivity].
  - destruct (String.eqb_spec k0 k') as [->|]; simpl.
    + destruct (String.eqb_spec k' k); [congruence | reflexivity].
    + now rewrite IH.
Qed.

Lemma dict_get_fold_set_absent (k : string) (es acc : list (string * val)) :
  ~ In k (map fst es) ->
  dict_get k acc = None ->
  dict_get k (fold_left (fun d kv => dict_set (fst kv) (snd kv) d) es acc) = None.
Proof.
  revert acc. induction es as [|[k0 v0] es IH]; intros acc Hin Hacc; [exact Hacc|].
  simpl in *. apply IH; [tauto|].
  rewrite dict_get_set_other; [exact Hacc | intros ->; tauto].
Qed.

(* ================================================================== *)
(** * C9: the region check of [_call] *)
(* ================================================================== *)

Section CallProperties.

Variable LiteralMap : Type.
Variable literal_map_truthy : LiteralMap -> bool.
Variable literal_map_string_repr : LiteralMap -> list (string * pytree).
Variable str_format : string -> list (string * string) -> exn + string.
Variable xxh64_hexdigest : string -> string.
Variable Response : Type.
Variable invoke : string -> val -> string -> val -> heap -> (Response + exn).

(** C9: when the inputs carry no region, no region argument is given and
    the constructor was given none, [_call] raises
    [ValueError("Region parameter is required.")] with an empty trace: no
    call of [update_dict_fn] and no call of the boto3 method came before.
    Every object that existed before the call, the config among them, is
    as it was. *)
Theorem C9_missing_region_raises_before_any_call (fuel : nat)
    (self : Boto3AgentMixin) (method : string) (config images : val)
    (inputs : option LiteralMap) (h : heap) :
  carries_no_region LiteralMap literal_map_truthy literal_map_string_repr inputs ->
  _region self = None ->
  exists h',
    _call LiteralMap literal_map_truthy literal_map_string_repr str_format
          xxh64_hexdigest Response invoke
          fuel self method config images inputs None h
    = {| call_outcome := Raise (ValueError "Region parameter is required.") h';
         call_trace := [] |}
    /\ (forall a, a < List.length h -> deref h' a = deref h a).
Proof.
  intros Hin Hself. unfold _call, alloc. rewrite Hself.
  assert (Hframe : forall a, a < List.length h ->
                     deref (h ++ [ODict []])%list a = deref h a)
    by (intros a Ha; now apply deref_app_lt).
  destruct inputs as [lm|];
    [|exists (h ++ [ODict []])%list; split; [reflexivity | exact Hframe]].
  destruct (literal_map_truthy lm) eqn:Etr;
    [|exists (h ++ [ODict []])%list; split; [reflexivity | exact Hframe]].
  clear Hframe. destruct Hin as [Hin|Hin]; [congruence|].
  cbn [alloc_tree]. unfold alloc.
  pose proof (alloc_each_keys (literal_map_string_repr lm) (h ++ [ODict []])%list) as Hkeys.
  assert (Hext : exists ext,
             snd (alloc_each
                    (fun kx h0 => let (v, h1) := alloc_tree (snd kx) h0 in
                                  ((fst kx, v), h1))
                    (literal_map_string_repr lm) (h ++ [ODict []])%list)
             = ((h ++ [ODict []]) ++ ext)%list).
  { apply (alloc_each_extends _ (fun _ => True)); [|apply Forall_forall; auto].
    intros kx h0 _. destruct (alloc_tree_extends (snd kx) h0) as [e E].
    exists e. destruct (alloc_tree (snd kx) h0). exact E. }
  destruct Hext as [ext Hext].
  destruct (alloc_each _ (literal_map_string_repr lm) (h ++ [ODict []])%list)
    as [es hx].
  simpl in Hkeys, Hext. subst hx.
  set (D := fold_left (fun d kv => dict_set (fst kv) (snd kv) d) es []).
  set (hx := ((h ++ [ODict []]) ++ ext)%list).
  set (iv := VRef (List.length hx)).
  assert (Hargs : deref (hx ++ [ODict D])%list (List.length h) = Some (ODict [])).
  { unfold hx. apply deref_app_old, deref_app_old, deref_alloc_new. }
  assert (Hlen : List.length h < List.length hx).
  { unfold hx. rewrite !length_app. simpl. lia. }
  assert (Hiv : deref (store_item (hx ++ [ODict D])%list (List.length h) "inputs" iv)
                      (List.length hx) = Some (ODict D)).
  { rewrite deref_store_item_other by lia. apply deref_alloc_new. }
  assert (Hsub : subscript (store_item (hx ++ [ODict D])%list (List.length h) "inputs" iv)
                           iv "region" = inl (KeyError "region")).
  { unfold subscript. unfold iv at 1. rewrite Hiv. unfold D.
    now rewrite (dict_get_fold_set_absent "region" es []) by (rewrite ?Hkeys; auto). }
  rewrite Hsub. cbn [py_or truthy val_of_opt_str negb].
  exists (store_item (hx ++ [ODict D])%list (List.length h) "inputs" iv).
  split; [reflexivity|].
  intros a Ha. rewrite deref_store_item_other by lia.
  unfold hx. rewrite <- !app_assoc. now apply deref_app_lt.
Qed.

End CallProperties.

Lemma C9_witness :
  exists h',
    _call unit (fun _ => true) (fun _ => [("endpoint_name", TStr "my-endpoint")])
          (fun s _ => inr s) (fun _ => "0123456789abcdef") unit
          (fun _ _ _ _ _ => inl tt)
          3 {| _service := "sagemaker"; _region := None |} "create_endpoint"
          (VRef 0) VNone (Some tt) None store_C1
    = {| call_outcome := Raise (ValueError "Region parameter is required.") h';
         call_trace := [] |}
    /\ (forall a, a < List.length store_C1 -> deref h' a = deref store_C1 a).
Proof.
  apply (C9_missing_region_raises_before_any_call unit (fun _ => true)
           (fun _ => [("endpoint_name", TStr "my-endpoint")])).
  - right. simpl. intros [H|[]]. discriminate H.
  - reflexivity.
Defined.

(* ================================================================== *)
(** * C10: what [update_dict_fn] writes *)
(* ================================================================== *)

Lemma unchanged_outside_refl (fp : list addr) (h : heap) :
  unchanged_outside fp h h.
Proof. split; auto. Qed.

Lemma unchanged_outside_trans (fp1 fp2 fp : list addr) (h1 h2 h3 : heap) :
  unchanged_outside fp1 h1 h2 ->
  unchanged_outside fp2 h2 h3 ->
  (forall b, In b fp1 -> In b fp) ->
  (forall b, In b fp2 -> In b fp) ->
  unchanged_outside fp h1 h3.
Proof.
  intros [L1 U1] [L2 U2] I1 I2. split; [lia|].
  intros b Hb Hn. rewrite U2, U1; auto. lia.
Qed.

Lemma unchanged_outside_weaken (fp fp' : list addr) (h h' : heap) :
  unchanged_outside fp h h' ->
  (forall b, In b fp -> In b fp') ->
  unchanged_outside fp' h h'.
Proof.
  intros H I. eapply unchanged_outside_trans;
    [exact H | apply unchanged_outside_refl | exact I | exact I].
Qed.

Lemma unchanged_outside_app (fp : list addr) (h ext : heap) :
  unchanged_outside fp h (h ++ ext)%list.
Proof.
  split; [rewrite length_app; lia|].
  intros b Hb _. now apply deref_app_lt.
Qed.

Lemma unchanged_outside_store (fp : list addr) (h : heap) (a : addr)
    (k : string) (v : val) :
  In a fp -> unchanged_outside fp h (store_item h a k v).
Proof.
  intros Ha. split; [rewrite length_store_item; lia|].
  intros b _ Hb. apply deref_store_item_other. intros ->. tauto.
Qed.

(** The str branch writes nothing: it only adds the copies of the table. *)
Lemma subst_matches_extends (ms : list string) :
  forall (s : string) (u : val) (tok : option string) (h : heap),
    exists ext, heap_of (subst_matches ms s u tok h) = (h ++ ext)%list.
Proof.
  induction ms as [|m ms IH]; intros s u tok h.
  - exists []. simpl. now rewrite app_nil_r.
  - cbn [subst_matches].
    destruct (PyStr.contains_char "." m).
    + assert (Hcopy : (exists e, py_copy h u = Raise e h)
                      \/ (exists c o, py_copy h u = Ret c (h ++ [o])%list)).
      { unfold py_copy, alloc. destruct u; try (left; eexists; reflexivity).
        destruct (deref h a); [right|left]; eauto. }
      destruct Hcopy as [[e ->]|(c & o & ->)].
      * exists []. simpl. now rewrite app_nil_r.
      * destruct (traverse (h ++ [o])%list c (PyStr.split_dot m)) as [e|found];
          [exists [o]; reflexivity|].
        destruct (String.eqb (PyStr.braced m) s); [exists [o]; reflexivity|].
        destruct found; try (exists [o]; reflexivity).
        destruct (IH (PyStr.replace s (PyStr.braced m) s0) u tok (h ++ [o])%list)
          as [ext E].
        exists ([o] ++ ext)%list. rewrite E. now rewrite app_assoc.
    + destruct (token_applies m tok) as [t|]; [|apply IH].
      destruct (63 <? PyStr.len (PyStr.replace s (PyStr.braced m) t))%Z; apply IH.
Qed.

Lemma update_str_extends (s : string) (u : val) (tok : option string) (h : heap) :
  exists ext, heap_of (update_str s u tok h) = (h ++ ext)%list.
Proof.
  unfold update_str.
  destruct (PyStr.contains_char "{" s && PyStr.contains_char "}" s).
  - apply subst_matches_extends.
  - exists []. simpl. now rewrite app_nil_r.
Qed.

Lemma all_some_map_Forall2 {A B : Type} (f : A -> option B) (l : list A)
    (ys : list B) :
  all_some (map f l) = Some ys <-> Forall2 (fun x y => f x = Some y) l ys.
Proof.
  revert ys. induction l as [|x l IH]; intros ys; simpl.
  - split; [intros [= <-]; constructor | intros H; inversion H; reflexivity].
  - destruct (f x) as [y|] eqn:Ex.
    + destruct (all_some (map f l)) as [ys'|] eqn:El; simpl.
      * split.
        -- intros [= <-]. constructor; [exact Ex | now apply IH].
        -- intros H. inversion H as [|x0 y0 l0 ys0 Hx Hl]; subst.
           apply IH in Hl. congruence.
      * split; [discriminate|].
        intros H. inversion H as [|x0 y0 l0 ys0 Hx Hl]; subst.
        apply IH in Hl. discriminate.
    + split; [discriminate|].
      intros H. inversion H; congruence.
Qed.

Lemma footprint_ref (n : nat) (h : heap) (a : addr) (fp : list addr) :
  footprint (S n) h (VRef a) = Some fp ->
  (exists l fps, deref h a = Some (OList l)
                 /\ Forall2 (fun x y => footprint n h x = Some y) l fps
                 /\ fp = a :: List.concat fps)
  \/ (exists d fps, deref h a = Some (ODict d)
                    /\ Forall2 (fun kv y => footprint n h (snd kv) = Some y) d fps
                    /\ fp = a :: List.concat fps).
Proof.
  cbn [footprint]. destruct (deref h a) as [[l|d]|]; [| |discriminate].
  - destruct (all_some (map (footprint n h) l)) as [fps|] eqn:E; [|discriminate].
    intros [= <-]. left. exists l, fps. repeat split.
    now apply all_some_map_Forall2.
  - destruct (all_some (map (fun kv => footprint n h (snd kv)) d)) as [fps|] eqn:E;
      [|discriminate].
    intros [= <-]. right. exists d, fps. repeat split.
    now apply (all_some_map_Forall2 (fun kv => footprint n h (snd kv))).
Qed.

Lemma footprint_valid (n : nat) :
  forall (h : heap) (v : val) (fp : list addr),
    footprint n h v = Some fp -> forall b, In b fp -> b < List.length h.
Proof.
  induction n as [|n IH]; intros h v fp Hfp b Hb.
  - destruct v; simpl in Hfp; try discriminate; injection Hfp as <-; destruct Hb.
  - destruct v as [| | | |a]; try (injection Hfp as <-; destruct Hb).
    assert (Hch : forall {A : Type} (g : A -> val) (l : list A) fps,
               Forall2 (fun x y => footprint n h (g x) = Some y) l fps ->
               In b (List.concat fps) -> b < List.length h).
    { intros A g l fps HF. induction HF as [|x y l fps Hx _ IHF]; simpl; [tauto|].
      rewrite in_app_iff. intros [Hin|Hin]; [eapply IH; eauto | auto]. }
    destruct (footprint_ref n h a fp Hfp) as [(l & fps & Ha & HF & ->)|(d & fps & Ha & HF & ->)];
      (destruct Hb as [<-|Hb]; [eapply deref_lt; eauto|]).
    + apply (Hch val (fun x => x) l fps HF Hb).
    + apply (Hch _ snd d fps HF Hb).
Qed.

(** The footprint depends on the objects of the footprint only. *)
Lemma footprint_agree (n : nat) :
  forall (h h' : heap) (v : val) (fp : list addr),
    footprint n h v = Some fp ->
    (forall b, In b fp -> deref h' b = deref h b) ->
    footprint n h' v = Some fp.
Proof.
  induction n as [|n IH]; intros h h' v fp Hfp Hag.
  - destruct v; simpl in *; congruence.
  - destruct v as [| | | |a]; try exact Hfp.
    assert (Hch : forall {A : Type} (g : A -> val) (l : list A) fps,
               Forall2 (fun x y => footprint n h (g x) = Some y) l fps ->
               (forall b, In b (List.concat fps) -> deref h' b = deref h b) ->
               all_some (map (fun x => footprint n h' (g x)) l) = Some fps).
    { intros A g l fps HF Hin. apply all_some_map_Forall2.
      induction HF as [|x y l fps Hx _ IHF]; constructor.
      - apply (IH h h' (g x) y Hx). intros b Hb. apply Hin. simpl.
        apply in_app_iff. now left.
      - apply IHF. intros b Hb. apply Hin. simpl. apply in_app_iff. now right. }
    destruct (footprint_ref n h a fp Hfp) as [(l & fps & Ha & HF & ->)|(d & fps & Ha & HF & ->)];
      cbn [footprint]; rewrite (Hag a (or_introl eq_refl)), Ha.
    + assert (E : all_some (map (footprint n h') l) = Some fps)
        by (apply (Hch val (fun x => x) l fps HF); intros b Hb; apply Hag; now right).
      now rewrite E.
    + assert (E : all_some (map (fun kv => footprint n h' (snd kv)) d) = Some fps)
        by (apply (Hch _ snd d fps HF); intros b Hb; apply Hag; now right).
      now rewrite E.
Qed.

Lemma Forall2_footprint_agree {A : Type} (g : A -> val) (n : nat)
    (h h' : heap) (l : list A) (fps : list (list addr)) :
  Forall2 (fun x y => footprint n h (g x) = Some y) l fps ->
  (forall b, In b (List.concat fps) -> deref h' b = deref h b) ->
  Forall2 (fun x y => footprint n h' (g x) = Some y) l fps.
Proof.
  intros HF. induction HF as [|x y l fps Hx _ IHF]; intros Hin; constructor.
  - apply (footprint_agree n h h' (g x) y Hx). intros b Hb. apply Hin. simpl.
    apply in_app_iff. now left.
  - apply IHF. intros b Hb. apply Hin. simpl. apply in_app_iff. now right.
Qed.

Lemma Forall2_footprint_valid {A : Type} (g : A -> val) (n : nat)
    (h : heap) (l : list A) (fps : list (list addr)) :
  Forall2 (fun x y => footprint n h (g x) = Some y) l fps ->
  forall b, In b (List.concat fps) -> b < List.length h.
Proof.
  intros HF. induction HF as [|x y l fps Hx _ IHF]; simpl; [tauto|].
  intros b Hb. apply in_app_iff in Hb as [Hb|Hb];
    [eapply footprint_valid; eauto | auto].
Qed.

Lemma NoDup_app_parts {A : Type} (l1 l2 : list A) :
  NoDup (l1 ++ l2)%list ->
  NoDup l1 /\ NoDup l2 /\ (forall x, In x l1 -> ~ In x l2).
Proof.
  induction l1 as [|x l1 IH]; simpl; intros H.
  - repeat split; [constructor | exact H | tauto].
  - inversion H as [|x0 l0 Hx Hr]; subst.
    destruct (IH Hr) as (N1 & N2 & D).
    repeat split; auto.
    + constructor; [|exact N1]. intros Hin. apply Hx, in_app_iff. now left.
    + intros y [<-|Hy] Hy2; [apply Hx, in_app_iff; now right | eapply D; eauto].
Qed.

Lemma skipn_nth_error {A : Type} (i : nat) (l : list A) :
  match skipn i l with
  | [] => nth_error l i = None
  | x :: r => nth_error l i = Some x /\ skipn (S i) l = r
  end.
Proof.
  revert l. induction i as [|i IH]; intros [|y l]; simpl; auto.
  apply IH.
Qed.

Lemma skipn_dict_set (k : string) (v v' : val) (d : list (string * val)) (i : nat) :
  nth_error d i = Some (k, v) ->
  skipn (S i) (dict_set k v' d) = skipn (S i) d.
Proof.
  revert i. induction d as [|[k0 v0] d IH]; intros i H.
  - destruct i; discriminate.
  - cbn [dict_set]. destruct (String.eqb_spec k0 k) as [->|Hne]; [reflexivity|].
    destruct i as [|i]; [simpl in H; congruence|].
    simpl in H. change (skipn (S i) (dict_set k v' d) = skipn (S i) d). eauto.
Qed.

Section Frame.

Variable F : val -> heap -> outcome val.
Variable depth : nat.
Hypothesis F_frame :
  forall v h fp, footprint depth h v = Some fp -> NoDup fp ->
                 unchanged_outside fp h (heap_of (F v h)).

Lemma map_items_frame (items : list val) :
  forall (h : heap) (fps : list (list addr)),
    Forall2 (fun x y => footprint depth h x = Some y) items fps ->
    NoDup (List.concat fps) ->
    unchanged_outside (List.concat fps) h (heap_of (map_items F items h)).
Proof.
  induction items as [|x items IH]; intros h fps HF Hnd.
  - apply unchanged_outside_refl.
  - destruct fps as [|y fps']; [inversion HF|].
    apply Forall2_cons_iff in HF as [Hx HF']. simpl in Hnd.
    destruct (NoDup_app_parts _ _ Hnd) as (Ny & Nr & Hdisj).
    pose proof (F_frame x h y Hx Ny) as Hstep.
    cbn [map_items]. destruct (F x h) as [x' h1|e h1]; cbn [heap_of] in Hstep.
    + assert (HF1 : Forall2 (fun x y => footprint depth h1 x = Some y) items fps').
      { apply (Forall2_footprint_agree (fun x => x) depth h h1 items fps' HF').
        intros b Hb. apply Hstep.
        - eapply (Forall2_footprint_valid (fun x => x)); eauto.
        - intros Hy. eapply Hdisj; eauto. }
      pose proof (IH h1 fps' HF1 Nr) as Hrest.
      assert (Hall : unchanged_outside (List.concat (y :: fps')) h
                       (heap_of (map_items F items h1))).
      { eapply unchanged_outside_trans; [exact Hstep | exact Hrest | |];
          intros b Hb; simpl; apply in_app_iff; auto. }
      destruct (map_items F items h1); exact Hall.
    + eapply unchanged_outside_weaken; [exact Hstep|].
      intros b Hb. simpl. apply in_app_iff. now left.
Qed.

Lemma dict_loop_frame (a : addr) (n : nat) :
  forall (i : nat) (h : heap) (d rest : list (string * val))
         (fps : list (list addr)),
    deref h a = Some (ODict d) ->
    skipn i d = rest ->
    Forall2 (fun kv y => footprint depth h (snd kv) = Some y) rest fps ->
    NoDup (a :: List.concat fps) ->
    unchanged_outside (a :: List.concat fps) h (heap_of (dict_loop F a i n h)).
Proof.
  induction n as [|n IH]; intros i h d rest fps Ha Hskip HF Hnd.
  - apply unchanged_outside_refl.
  - cbn [dict_loop]. rewrite Ha.
    pose proof (skipn_nth_error i d) as Hnth. rewrite Hskip in Hnth.
    destruct rest as [|[k v] rest].
    + rewrite Hnth. apply unchanged_outside_refl.
    + destruct Hnth as [Hnth Hskip']. rewrite Hnth.
      destruct fps as [|y fps']; [inversion HF|].
      apply Forall2_cons_iff in HF as [Hv HF']. cbn [snd] in Hv.
      apply NoDup_cons_iff in Hnd as [Hna Hnd']. simpl in Hna, Hnd'.
      destruct (NoDup_app_parts _ _ Hnd') as (Ny & Nr & Hdisj).
      pose proof (F_frame v h y Hv Ny) as Hstep.
      assert (Halt : a < List.length h) by (eapply deref_lt; eauto).
      destruct (F v h) as [v' h1|e h1]; cbn [heap_of] in Hstep.
      * destruct Hstep as [Hlen Hun].
        assert (Ha1 : deref h1 a = Some (ODict d)).
        { rewrite Hun; auto. intros Hy. apply Hna, in_app_iff. now left. }
        set (h2 := store_item h1 a k v').
        assert (Ha2 : deref h2 a = Some (ODict (dict_set k v' d))).
        { unfold h2, store_item. rewrite Ha1. unfold deref.
          apply nth_error_set_nth_eq. lia. }
        assert (H12 : unchanged_outside (a :: y) h h2).
        { eapply unchanged_outside_trans with (fp1 := y) (fp2 := [a]).
          - split; eauto.
          - apply unchanged_outside_store. now left.
          - intros b Hb. now right.
          - intros b [<-|[]]. now left. }
        assert (HF2 : Forall2 (fun kv y => footprint depth h2 (snd kv) = Some y)
                              rest fps').
        { apply (Forall2_footprint_agree snd depth h h2 rest fps' HF').
          intros b Hb. apply H12.
          - eapply (Forall2_footprint_valid snd); eauto.
          - intros [<-|Hy].
            + apply Hna, in_app_iff. now right.
            + eapply Hdisj; eauto. }
        assert (Hnd2 : NoDup (a :: List.concat fps')).
        { constructor; [|exact Nr]. intros Hin. apply Hna, in_app_iff. now right. }
        pose proof (IH (S i) h2 (dict_set k v' d) rest fps' Ha2
                       (eq_trans (skipn_dict_set k v v' d i Hnth) Hskip')
                       HF2 Hnd2) as Hrest.
        eapply unchanged_outside_trans; [exact H12 | exact Hrest | |].
        -- intros b [<-|Hb]; [now left | right; simpl; apply in_app_iff; now left].
        -- intros b [<-|Hb]; [now left | right; simpl; apply in_app_iff; now right].
      * eapply unchanged_outside_weaken; [exact Hstep|].
        intros b Hb. right. simpl. apply in_app_iff. now left.
Qed.

End Frame.

(** [update_dict_fn] writes only into the objects of the value it is given,
    when that value reaches no object twice; whatever else is in the
    store, the lookup table included, it leaves as it is.  This holds also
    when the call ends in an exception. *)
Lemma update_dict_fn_frame (fuel : nat) :
  forall (depth : nat) (v u : val) (tok : option string) (h : heap)
         (fp : list addr),
    footprint depth h v = Some fp ->
    NoDup fp ->
    unchanged_outside fp h (heap_of (update_dict_fn fuel v u tok h)).
Proof.
  induction fuel as [|f IH]; intros depth v u tok h fp Hfp Hnd.
  - apply unchanged_outside_refl.
  - destruct v as [| | |s|a]; try apply unchanged_outside_refl.
    + cbn [update_dict_fn].
      destruct (update_str_extends s u tok h) as [ext ->].
      apply unchanged_outside_app.
    + destruct depth as [|n]; [discriminate|].
      destruct (footprint_ref n h a fp Hfp)
        as [(l & fps & Ha & HF & ->)|(d & fps & Ha & HF & ->)];
        cbn [update_dict_fn]; rewrite Ha.
      * apply NoDup_cons_iff in Hnd as [Hna Hnd'].
        pose proof (map_items_frame
                      (fun item => update_dict_fn f item u tok) n
                      (fun v h fp => IH n v u tok h fp) l h fps HF Hnd') as Hl.
        destruct (map_items _ l h) as [items' h1|e h1]; cbn [heap_of] in Hl.
        -- unfold alloc. cbn [heap_of].
           eapply unchanged_outside_trans;
             [exact Hl | apply (unchanged_outside_app []) | |].
           ++ intros b Hb. now right.
           ++ intros b [].
        -- eapply unchanged_outside_weaken; [exact Hl|].
           intros b Hb. now right.
      * pose proof (dict_loop_frame
                      (fun value => update_dict_fn f value u tok) n
                      (fun v h fp => IH n v u tok h fp) a (List.length d)
                      0 h d d fps Ha eq_refl HF Hnd) as Hd.
        destruct (dict_loop _ a 0 (List.length d) h); exact Hd.
Qed.

Lemma reaches_valid (h : heap) (v : val) (b : addr) :
  reaches h v b -> b < List.length h.
Proof. induction 1; eauto using deref_lt. Qed.

(** C10, as stated, fails: with one mapping as config and as lookup table,
    the assignment to the config's key ["c"] is an assignment to the table. *)
Lemma C10_counterexample :
  update_dict_fn 3 (VRef 0) (VRef 0) None store_C10
  = Ret (VRef 0)
        [ODict [("a", VRef 1); ("c", VStr "x")];
         ODict [("b", VStr "x")];
         ODict [("a", VRef 1); ("c", VStr "{a.b}")]]
  /\ deref (heap_of (update_dict_fn 3 (VRef 0) (VRef 0) None store_C10)) 0
     <> deref store_C10 0.
Proof. split; [reflexivity | discriminate]. Qed.

(** Sharing inside the config is enough: the dict [D] is visited twice, the
    first visit puts the table's dict [U] into it, the second visit
    substitutes inside [U]. *)
Lemma update_dict_fn_shared_config_writes_table :
  deref store_shared 4 = Some (ODict [("k", VStr "{p.q}")])
  /\ deref (heap_of (update_dict_fn 4 (VRef 0) (VRef 2) None store_shared)) 4
     = Some (ODict [("k", VStr "val")]).
Proof. split; reflexivity. Qed.

(** C10 (amended): when the configuration value reaches no object twice
    (its footprint has no duplicate) and shares no object with the lookup
    table, every object of the lookup table is after the call what it was
    before, whatever the idempotency token and also when the call raises:
    only objects of the configuration value are written. *)
Theorem C10_lookup_table_unchanged_without_sharing (fuel depth : nat)
    (original_dict update_dict : val) (idempotence_token : option string)
    (h : heap) (fp : list addr) :
  footprint depth h original_dict = Some fp ->
  NoDup fp ->
  (forall b, reaches h update_dict b -> ~ In b fp) ->
  forall b, reaches h update_dict b ->
    deref (heap_of (update_dict_fn fuel original_dict update_dict
                                   idempotence_token h)) b
    = deref h b.
Proof.
  intros Hfp Hnd Hdisj b Hb.
  destruct (update_dict_fn_frame fuel depth original_dict update_dict
              idempotence_token h fp Hfp Hnd) as [_ Hun].
  apply Hun; [eapply reaches_valid; eauto | auto].
Qed.

Lemma C10_witness :
  deref (heap_of (update_dict_fn 4 (VRef 0) (VRef 2) None store_frame)) 3
  = deref store_frame 3.
Proof.
  apply (C10_lookup_table_unchanged_without_sharing 4 2 (VRef 0) (VRef 2) None
           store_frame [0; 1]).
  - reflexivity.
  - constructor; [simpl; lia|]. constructor; [simpl; tauto|]. constructor.
  - intros b Hr Hin.
    assert (Hb : b = 2 \/ b = 3).
    { inversion Hr as [a o Ha|a l x b0 Ha Hx Hr'|a d k x b0 Ha Hx Hr']; subst.
      - now left.
      - discriminate Ha.
      - injection Ha as <-. destruct Hx as [Hx|[]]. injection Hx as <- <-.
        inversion Hr' as [a o Ha|a l x b0 Ha Hx Hr''|a d k x b0 Ha Hx Hr'']; subst.
        + now right.
        + discriminate Ha.
        + injection Ha as <-.
          destruct Hx as [Hx|[Hx|[]]]; injection Hx as <- <-; inversion Hr''. }
    simpl in Hin. lia.
  - eapply reaches_entry; [reflexivity | left; reflexivity |].
    eapply reaches_self. reflexivity.
Defined.

(* ================================================================== *)
(** * C8: applying the substitution again *)
(* ================================================================== *)

Lemma pairwise_impl {A B : Type} (R1 R2 : A -> B -> Prop) (l1 : list A) :
  Forall (fun x => forall y, R1 x y -> R2 x y) l1 ->
  forall l2, pairwise R1 l1 l2 -> pairwise R2 l1 l2.
Proof.
  induction 1 as [|x l1 Hx _ IH]; intros [|y l2]; simpl; auto.
  intros [Hxy Hr]. split; auto.
Qed.

Lemma pairwise_length {A B : Type} (R : A -> B -> Prop) (l1 : list A) :
  forall l2, pairwise R l1 l2 -> List.length l1 = List.length l2.
Proof.
  induction l1 as [|x l1 IH]; intros [|y l2]; simpl; try tauto.
  intros [_ Hr]. f_equal. auto.
Qed.

Lemma pairwise_nth {A B : Type} (R : A -> B -> Prop) (l1 : list A) :
  forall l2 i x, pairwise R l1 l2 -> nth_error l1 i = Some x ->
                 exists y, nth_error l2 i = Some y /\ R x y.
Proof.
  induction l1 as [|x0 l1 IH]; intros [|y0 l2] [|i] x H Hn; simpl in *;
    try discriminate; try tauto.
  - injection Hn as <-. exists y0. tauto.
  - destruct H as [_ Hr]. eauto.
Qed.

Lemma pairwise_functional {A B : Type} (R : A -> B -> Prop) (l1 : list A) :
  Forall (fun x => forall x' y, R x y -> R x' y -> x = x') l1 ->
  forall l1' l2, pairwise R l1 l2 -> pairwise R l1' l2 -> l1 = l1'.
Proof.
  induction 1 as [|x l1 Hx _ IH]; intros [|x' l1'] [|y l2]; simpl;
    try tauto.
  intros [Hxy Hr] [Hxy' Hr']. f_equal; eauto.
Qed.

Lemma keeps_views_refl (h : heap) : keeps_views h h.
Proof. intros t w H. exact H. Qed.

Lemma keeps_views_trans (h1 h2 h3 : heap) :
  keeps_views h1 h2 -> keeps_views h2 h3 -> keeps_views h1 h3.
Proof. intros H12 H23 t w H. auto. Qed.

(** Adding objects changes no view. *)
Lemma keeps_views_app (h ext : heap) : keeps_views h (h ++ ext)%list.
Proof.
  intros t. induction t as [| | | |items IH|entries IH] using pytree_induction;
    intros w Hw; try exact Hw.
  - destruct Hw as (a & l & -> & Ha & Hl).
    exists a, l. repeat split; [now apply deref_app_old|].
    eapply pairwise_impl; [exact IH | exact Hl].
  - destruct Hw as (a & d & -> & Ha & Hd).
    exists a, d. repeat split; [now apply deref_app_old|].
    eapply pairwise_impl; [|exact Hd].
    eapply Forall_impl; [|exact IH].
    intros kt Hkt kv [Hk Hv]. split; auto.
Qed.

(** A value reads as one tree at most. *)
Lemma view_functional (h : heap) (t : pytree) :
  forall t' w, view h t w -> view h t' w -> t = t'.
Proof.
  induction t as [| | | |items IH|entries IH] using pytree_induction;
    intros t' w Hw Hw'.
  - simpl in Hw. subst w. destruct t'; simpl in Hw'; try congruence;
      destruct Hw' as (? & ? & ? & _); discriminate.
  - simpl in Hw. subst w. destruct t'; simpl in Hw'; try congruence;
      destruct Hw' as (? & ? & ? & _); discriminate.
  - simpl in Hw. subst w. destruct t'; simpl in Hw'; try congruence;
      destruct Hw' as (? & ? & ? & _); discriminate.
  - simpl in Hw. subst w. destruct t'; simpl in Hw'; try congruence;
      destruct Hw' as (? & ? & ? & _); discriminate.
  - destruct Hw as (a & l & -> & Ha & Hl).
    destruct t' as [| | | |items'|entries']; simpl in Hw'; try discriminate.
    + destruct Hw' as (a' & l' & [= <-] & Ha' & Hl').
      assert (l' = l) by congruence. subst l'.
      f_equal. eapply pairwise_functional; eauto.
    + destruct Hw' as (a' & d' & [= <-] & Ha' & _). congruence.
  - destruct Hw as (a & d & -> & Ha & Hd).
    destruct t' as [| | | |items'|entries']; simpl in Hw'; try discriminate.
    + destruct Hw' as (a' & l' & [= <-] & Ha' & _). congruence.
    + destruct Hw' as (a' & d' & [= <-] & Ha' & Hd').
      assert (d' = d) by congruence. subst d'.
      f_equal. eapply pairwise_functional; [|exact Hd|exact Hd'].
      eapply Forall_impl; [|exact IH].
      intros [k t] Hkt [k' t'] [k0 v0] [Hk Hv] [Hk' Hv']. simpl in *.
      f_equal; [congruence | eauto].
Qed.

Lemma distinct_cons_absent (k : string) (l : list string) :
  distinct (k :: l) = true -> ~ In k l /\ distinct l = true.
Proof.
  simpl. intros H. apply andb_true_iff in H as [Hk Hl]. split; [|exact Hl].
  intros Hin. apply negb_true_iff in Hk.
  assert (existsb (String.eqb k) l = true)
    by (apply existsb_exists; exists k; split; [exact Hin | apply String.eqb_refl]).
  congruence.
Qed.

(** Assigning to the key at position [i] of a dict whose keys differ
    replaces the value at that position and nothing else. *)
Lemma pairwise_dict_set (R R' : string * pytree -> string * val -> Prop)
    (k : string) (v' : val) (ti : pytree) :
  (forall kt kv, R kt kv -> fst kt = fst kv) ->
  R' (k, ti) (k, v') ->
  forall (td : list (string * pytree)) (d : list (string * val)) (i : nat),
    Forall (fun kt => forall kv, R kt kv -> R' kt kv) td ->
    distinct (map fst td) = true ->
    nth_error td i = Some (k, ti) ->
    pairwise R td d ->
    pairwise R' td (dict_set k v' d).
Proof.
  intros Hkey Hnew td.
  induction td as [|[k0 t0] td IH]; intros [|[k1 v1] d] i Himp Hdis Hnth Hp;
    simpl in Hp; try tauto.
  - destruct i; discriminate.
  - destruct Hp as [H0 Hp].
    pose proof (Hkey _ _ H0) as E. simpl in E. subst k1.
    apply distinct_cons_absent in Hdis as [Hnotin Hdis].
    apply Forall_cons_iff in Himp as [Himp0 Himp].
    cbn [dict_set].
    destruct i as [|i]; simpl in Hnth.
    + injection Hnth as -> ->. rewrite String.eqb_refl.
      split; [exact Hnew|].
      eapply pairwise_impl; [exact Himp | exact Hp].
    + destruct (String.eqb_spec k0 k) as [->|Hne].
      * exfalso. apply Hnotin. apply nth_error_In in Hnth.
        exact (in_map fst td (k, ti) Hnth).
      * split; [now apply Himp0|]. eapply IH; eauto.
Qed.

(** Replacing the value of a key by one that reads as the same tree
    changes no view of the store. *)
Lemma keeps_views_store (h : heap) (a : addr) (td : list (string * pytree))
    (i : nat) (k : string) (ti : pytree) (v' : val) :
  view h (TDict td) (VRef a) ->
  distinct (map fst td) = true ->
  nth_error td i = Some (k, ti) ->
  view h ti v' ->
  keeps_views h (store_item h a k v').
Proof.
  intros Hroot Hdis Hnth Hnew.
  pose proof Hroot as (a0 & d & [= <-] & Ha & Hd).
  assert (Hlt : a < List.length h) by (eapply deref_lt; eauto).
  assert (Hother : forall b, b <> a -> deref (store_item h a k v') b = deref h b)
    by (intros b Hb; apply deref_store_item_other; congruence).
  assert (Hat : deref (store_item h a k v') a = Some (ODict (dict_set k v' d)))
    by (unfold store_item; rewrite Ha; unfold deref;
        now apply nth_error_set_nth_eq).
  intros t. induction t as [| | | |items IH|entries IH] using pytree_induction;
    intros w Hw; try exact Hw.
  - destruct Hw as (b & l & -> & Hb & Hl).
    exists b, l. repeat split.
    + rewrite Hother; [exact Hb | congruence].
    + eapply pairwise_impl; [exact IH | exact Hl].
  - pose proof Hw as (b & d2 & -> & Hb & Hd2).
    assert (IH' : Forall
              (fun kt => forall kv,
                   fst kt = fst kv /\ view h (snd kt) (snd kv) ->
                   fst kt = fst kv /\ view (store_item h a k v') (snd kt) (snd kv))
              entries).
    { eapply Forall_impl; [|exact IH]. intros kt Hkt kv [Hk Hv]. split; auto. }
    destruct (Nat.eq_dec b a) as [->|Hne].
    + assert (E : TDict entries = TDict td) by (eapply view_functional; eauto).
      injection E as ->.
      exists a, (dict_set k v' d). repeat split; [exact Hat|].
      eapply (pairwise_dict_set
                (fun kt kv => fst kt = fst kv /\ view h (snd kt) (snd kv))
                (fun kt kv => fst kt = fst kv
                              /\ view (store_item h a k v') (snd kt) (snd kv))
                k v' ti); eauto.
      * tauto.
      * split; [reflexivity|]. simpl.
        apply nth_error_In in Hnth.
        rewrite Forall_forall in IH. apply (IH (k, ti) Hnth). exact Hnew.
    + exists b, d2. repeat split; [rewrite Hother; auto|].
      eapply pairwise_impl; [exact IH' | exact Hd2].
Qed.

Lemma subst_matches_settled (ms : list string) :
  forallb (fun m => negb (PyStr.contains_char "." m)) ms = true ->
  forall (s : string) (u : val) (h : heap),
    subst_matches ms s u None h = Ret (VStr s) h.
Proof.
  induction ms as [|m ms IH]; intros Hms s u h; [reflexivity|].
  simpl in Hms. apply andb_true_iff in Hms as [Hm Hms].
  apply negb_true_iff in Hm.
  cbn [subst_matches token_applies]. rewrite Hm. now apply IH.
Qed.

(** Without a dotted token and without an idempotency token, a string is
    returned as it is and the store is not touched. *)
Lemma update_str_settled (s : string) (u : val) (h : heap) :
  settled (TStr s) = true -> update_str s u None h = Ret (VStr s) h.
Proof.
  intros Hs. unfold update_str.
  destruct (PyStr.contains_char "{" s && PyStr.contains_char "}" s);
    [now apply subst_matches_settled | reflexivity].
Qed.

Lemma tree_depth_item (items : list pytree) (x : pytree) :
  In x items -> tree_depth x < tree_depth (TList items).
Proof.
  cbn [tree_depth]. induction items as [|y items IH]; simpl; [tauto|].
  intros [->|Hin]; [lia|]. specialize (IH Hin). lia.
Qed.

Lemma tree_depth_entry (entries : list (string * pytree)) (kt : string * pytree) :
  In kt entries -> tree_depth (snd kt) < tree_depth (TDict entries).
Proof.
  cbn [tree_depth]. induction entries as [|y entries IH]; simpl; [tauto|].
  intros [->|Hin]; [lia|]. specialize (IH Hin). lia.
Qed.

Section Settled.

Variable F : val -> heap -> outcome val.

Lemma map_items_settled (ts : list pytree) :
  Forall (fun t => forall v h, view h t v ->
                   exists v' h', F v h = Ret v' h' /\ view h' t v'
                                 /\ keeps_views h h') ts ->
  forall (l : list val) (h : heap),
    pairwise (view h) ts l ->
    exists l' h', map_items F l h = Ret l' h'
                  /\ pairwise (view h') ts l'
                  /\ keeps_views h h'.
Proof.
  induction 1 as [|t ts Ht _ IH]; intros [|x l] h Hp; simpl in Hp; try tauto.
  - exists [], h. repeat split. apply keeps_views_refl.
  - destruct Hp as [Hx Hr].
    destruct (Ht x h Hx) as (v' & h1 & E1 & V1 & K1).
    assert (Hr1 : pairwise (view h1) ts l).
    { eapply pairwise_impl; [|exact Hr]. apply Forall_forall. intros t0 _ y. apply K1. }
    destruct (IH l h1 Hr1) as (l' & h2 & E2 & V2 & K2).
    exists (v' :: l'), h2. cbn [map_items]. rewrite E1, E2.
    repeat split; [apply K2, V1 | exact V2 | eapply keeps_views_trans; eauto].
Qed.

Lemma dict_loop_settled (a : addr) (td : list (string * pytree)) :
  distinct (map fst td) = true ->
  forall (rest done : list (string * pytree)),
    td = (done ++ rest)%list ->
    Forall (fun kt => forall v h, view h (snd kt) v ->
                      exists v' h', F v h = Ret v' h' /\ view h' (snd kt) v'
                                    /\ keeps_views h h') rest ->
    forall h, view h (TDict td) (VRef a) ->
      exists h', dict_loop F a (List.length done) (List.length rest) h = Ret tt h'
                 /\ keeps_views h h'.
Proof.
  intros Hdis rest.
  induction rest as [|[k ti] rest IH]; intros done Htd HF h Hv.
  - exists h. split; [reflexivity | apply keeps_views_refl].
  - apply Forall_cons_iff in HF as [Hti HF]. cbn [snd] in Hti.
    pose proof Hv as (a0 & d & E & Ha & Hd). injection E as <-.
    assert (Hnth : nth_error td (List.length done) = Some (k, ti)).
    { rewrite Htd, nth_error_app2, Nat.sub_diag by lia. reflexivity. }
    destruct (pairwise_nth _ _ _ _ _ Hd Hnth) as ([k' x] & Hnd & Hk & Hx).
    simpl in Hk, Hx. subst k'.
    cbn [List.length dict_loop]. rewrite Ha, Hnd.
    destruct (Hti x h Hx) as (v' & h1 & E1 & V1 & K1). rewrite E1.
    pose proof (keeps_views_store h1 a td (List.length done) k ti v'
                  (K1 _ _ Hv) Hdis Hnth V1) as K2.
    destruct (IH (done ++ [(k, ti)])%list
                 ltac:(rewrite <- app_assoc; exact Htd) HF
                 (store_item h1 a k v') (K2 _ _ (K1 _ _ Hv)))
      as (h' & E' & K').
    rewrite length_app in E'. simpl in E'. rewrite Nat.add_1_r in E'.
    exists h'. split; [exact E'|].
    eapply keeps_views_trans; [exact K1|].
    eapply keeps_views_trans; [exact K2 | exact K'].
Qed.

End Settled.

(** On a value without dotted placeholder tokens, [update_dict_fn] without
    idempotency token returns a value that reads as the same tree, and
    whatever else the store holds reads as before.  The lookup table is not
    consulted, so it may be any value, the config itself included. *)
Lemma update_dict_fn_settled (t : pytree) :
  forall (fuel : nat) (v u : val) (h : heap),
    view h t v ->
    settled t = true ->
    well_keyed t = true ->
    tree_depth t < fuel ->
    exists v' h', update_dict_fn fuel v u None h = Ret v' h'
                  /\ view h' t v'
                  /\ keeps_views h h'.
Proof.
  induction t as [| | |s|items IH|entries IH] using pytree_induction;
    intros fuel v u h Hv Hset Hkeys Hfuel;
    (destruct fuel as [|f]; [lia|]).
  - simpl in Hv. subst v. exists VNone, h. repeat split. apply keeps_views_refl.
  - simpl in Hv. subst v. exists (VBool b), h. repeat split. apply keeps_views_refl.
  - simpl in Hv. subst v. exists (VInt z), h. repeat split. apply keeps_views_refl.
  - simpl in Hv. subst v. exists (VStr s), h.
    rewrite update_dict_fn_str, update_str_settled by exact Hset.
    repeat split. apply keeps_views_refl.
  - pose proof Hv as (a & l & -> & Ha & Hl).
    assert (HF : Forall (fun t => forall v h, view h t v ->
                   exists v' h', update_dict_fn f v u None h = Ret v' h'
                                 /\ view h' t v' /\ keeps_views h h') items).
    { apply Forall_forall. intros x Hin v0 h0 Hv0.
      rewrite Forall_forall in IH. apply (IH x Hin f v0 u h0 Hv0).
      - cbn [settled] in Hset. rewrite forallb_forall in Hset. auto.
      - cbn [well_keyed] in Hkeys. rewrite forallb_forall in Hkeys. auto.
      - pose proof (tree_depth_item items x Hin). lia. }
    destruct (map_items_settled (fun item => update_dict_fn f item u None)
                items HF l h Hl) as (l' & h1 & E & V & K).
    cbn [update_dict_fn]. rewrite Ha, E. unfold alloc.
    exists (VRef (List.length h1)), (h1 ++ [OList l'])%list.
    repeat split.
    + exists (List.length h1), l'. repeat split; [apply deref_alloc_new|].
      eapply pairwise_impl; [|exact V]. apply Forall_forall.
      intros t0 _ y. apply keeps_views_app.
    + eapply keeps_views_trans; [exact K | apply keeps_views_app].
  - pose proof Hv as (a & d & -> & Ha & Hd).
    cbn [well_keyed] in Hkeys. apply andb_true_iff in Hkeys as [Hdis Hkeys].
    assert (HF : Forall (fun kt => forall v h, view h (snd kt) v ->
                   exists v' h', update_dict_fn f v u None h = Ret v' h'
                                 /\ view h' (snd kt) v' /\ keeps_views h h') entries).
    { apply Forall_forall. intros kt Hin v0 h0 Hv0.
      rewrite Forall_forall in IH. apply (IH kt Hin f v0 u h0 Hv0).
      - cbn [settled] in Hset. rewrite forallb_forall in Hset. auto.
      - rewrite forallb_forall in Hkeys. auto.
      - pose proof (tree_depth_entry entries kt Hin). lia. }
    destruct (dict_loop_settled (fun value => update_dict_fn f value u None)
                a entries Hdis entries [] eq_refl HF h Hv)
      as (h1 & E & K).
    cbn [List.length] in E.
    rewrite (pairwise_length _ _ _ Hd) in E.
    cbn [update_dict_fn]. rewrite Ha, E.
    exists (VRef a), h1. repeat split; [apply K, Hv | exact K].
Qed.

Lemma all_some_map_Forall2_pairwise {A B C : Type} (f : A -> option B)
    (R : C -> A -> Prop) (g : B -> C) (l : list A) (ys : list B) :
  Forall2 (fun x y => f x = Some y) l ys ->
  (forall x y, In x l -> f x = Some y -> R (g y) x) ->
  pairwise R (map g ys) l.
Proof.
  induction 1 as [|x y l ys Hx _ IH]; intros HR; simpl; [exact I|].
  split; [apply HR; [now left | exact Hx]|].
  apply IH. intros x0 y0 Hin. apply HR. now right.
Qed.

(** What [snapshot] computes is a view. *)
Lemma snapshot_view (n : nat) :
  forall (h : heap) (v : val) (t : pytree),
    snapshot n h v = Some t -> view h t v.
Proof.
  induction n as [|n IH]; intros h v t Hs.
  - destruct v; simpl in Hs; try discriminate; injection Hs as <-; reflexivity.
  - destruct v as [| | | |a]; try (injection Hs as <-; reflexivity).
    cbn [snapshot] in Hs. destruct (deref h a) as [[l|d]|] eqn:Ha; [| |discriminate].
    + destruct (all_some (map (snapshot n h) l)) as [ts|] eqn:El; [|discriminate].
      injection Hs as <-. apply all_some_map_Forall2 in El.
      exists a, l. repeat split; [exact Ha|].
      rewrite <- (map_id ts).
      eapply all_some_map_Forall2_pairwise; [exact El|].
      intros x y _ Hx. now apply IH.
    + destruct (all_some (map (fun kv => option_map (pair (fst kv))
                                           (snapshot n h (snd kv))) d))
        as [td|] eqn:El; [|discriminate].
      injection Hs as <-.
      apply (all_some_map_Forall2
               (fun kv => option_map (pair (fst kv)) (snapshot n h (snd kv)))) in El.
      exists a, d. repeat split; [exact Ha|].
      rewrite <- (map_id td).
      eapply all_some_map_Forall2_pairwise; [exact El|].
      intros [k x] [k' t'] _ Hx. simpl in Hx.
      destruct (snapshot n h x) as [t0|] eqn:E0; [|discriminate].
      injection Hx as <- <-. split; [reflexivity | now apply IH].
Qed.

Lemma snapshot_depth (n : nat) :
  forall (h : heap) (v : val) (t : pytree),
    snapshot n h v = Some t -> tree_depth t <= n.
Proof.
  induction n as [|n IH]; intros h v t Hs.
  - destruct v; simpl in Hs; try discriminate; injection Hs as <-; simpl; lia.
  - destruct v as [| | | |a]; try (injection Hs as <-; simpl; lia).
    cbn [snapshot] in Hs. destruct (deref h a) as [[l|d]|] eqn:Ha; [| |discriminate].
    + destruct (all_some (map (snapshot n h) l)) as [ts|] eqn:El; [|discriminate].
      injection Hs as <-. apply all_some_map_Forall2 in El.
      cbn [tree_depth]. apply le_n_S. clear Ha.
      induction El as [|x y l ts Hx _ IHl]; simpl; [lia|].
      apply IH in Hx. lia.
    + destruct (all_some (map (fun kv => option_map (pair (fst kv))
                                           (snapshot n h (snd kv))) d))
        as [td|] eqn:El; [|discriminate].
      injection Hs as <-.
      apply (all_some_map_Forall2
               (fun kv => option_map (pair (fst kv)) (snapshot n h (snd kv)))) in El.
      cbn [tree_depth]. apply le_n_S. clear Ha.
      induction El as [|[k x] [k' t'] d td Hx _ IHl]; simpl; [lia|].
      simpl in Hx. destruct (snapshot n h x) as [t0|] eqn:E0; [|discriminate].
      injection Hx as <- <-. apply IH in E0. lia.
Qed.

(** A view is computed by [snapshot], at any depth that the tree fits. *)
Lemma view_snapshot (t : pytree) :
  forall (h : heap) (v : val) (n : nat),
    view h t v -> tree_depth t <= n -> snapshot n h v = Some t.
Proof.
  induction t as [| | | |items IH|entries IH] using pytree_induction;
    intros h v n Hv Hn;
    try (simpl in Hv; subst v; destruct n; reflexivity).
  - destruct Hv as (a & l & -> & Ha & Hl).
    destruct n as [|n]; [simpl in Hn; lia|].
    cbn [tree_depth] in Hn. apply le_S_n in Hn.
    cbn [snapshot]. rewrite Ha.
    assert (E : all_some (map (snapshot n h) l) = Some items).
    { apply all_some_map_Forall2.
      clear Ha. revert l Hl Hn.
      induction IH as [|t ts Ht _ IHts]; intros [|x l] Hl Hn; simpl in Hl;
        try tauto; [constructor|].
      destruct Hl as [Hx Hl]. simpl in Hn.
      constructor; [apply Ht; [exact Hx | lia] | apply IHts; [exact Hl | lia]]. }
    now rewrite E.
  - destruct Hv as (a & d & -> & Ha & Hd).
    destruct n as [|n]; [simpl in Hn; lia|].
    cbn [tree_depth] in Hn. apply le_S_n in Hn.
    cbn [snapshot]. rewrite Ha.
    assert (E : all_some (map (fun kv => option_map (pair (fst kv))
                                           (snapshot n h (snd kv))) d)
                = Some entries).
    { apply (all_some_map_Forall2
               (fun kv => option_map (pair (fst kv)) (snapshot n h (snd kv)))).
      clear Ha. revert d Hd Hn.
      induction IH as [|[k t] ts Ht _ IHts]; intros [|[k' x] d] Hd Hn;
        simpl in Hd; try tauto; [constructor|].
      destruct Hd as [[Hk Hx] Hd]. simpl in Hk, Hx, Hn, Ht. subst k'.
      constructor; [|apply IHts; [exact Hd | lia]].
      simpl. rewrite (Ht h x n Hx) by lia. reflexivity. }
    now rewrite E.
Qed.

(** C8, as stated, fails: in [M] no placeholder refers to the place where
    it stands or to a value that leads back to it ([a] refers to [b.c],
    [b.c] to [d.e], [d.e] is plain), yet the first application leaves
    ["{d.e}"] at [a], and the second replaces it by ["x"]. *)
Lemma C8_counterexample :
  update_dict_fn 4 (VRef 0) (VRef 0) None store_C8 = Ret (VRef 0) store_C8_once
  /\ snapshot 2 store_C8_once (VRef 0)
     = Some (TDict [("a", TStr "{d.e}"); ("b", TDict [("c", TStr "x")]);
                    ("d", TDict [("e", TStr "x")])])
  /\ snapshot 2 (heap_of (update_dict_fn 4 (VRef 0) (VRef 0) None store_C8_once))
                (VRef 0)
     = Some (TDict [("a", TStr "x"); ("b", TDict [("c", TStr "x")]);
                    ("d", TDict [("e", TStr "x")])])
  /\ snapshot 2 (heap_of (update_dict_fn 4 (VRef 0) (VRef 0) None store_C8_once))
                (VRef 0)
     <> snapshot 2 store_C8_once (VRef 0).
Proof. repeat split; try reflexivity. vm_compute. discriminate. Qed.

(** C8 (amended): when the result of applying [update_dict_fn(M, M)] once
    has no dotted placeholder token left in any of its strings, applying
    it again returns a value that reads as the same tree: the second
    application yields what the first did. *)
Theorem C8_second_application_keeps_settled_result (fuel depth : nat)
    (M v1 : val) (h h1 : heap) (t : pytree) :
  update_dict_fn fuel M M None h = Ret v1 h1 ->
  snapshot depth h1 v1 = Some t ->
  settled t = true ->
  well_keyed t = true ->
  depth < fuel ->
  exists v2 h2,
    update_dict_fn fuel v1 v1 None h1 = Ret v2 h2
    /\ snapshot depth h2 v2 = Some t.
Proof.
  intros _ Hs Hset Hkeys Hfuel.
  pose proof (snapshot_depth depth h1 v1 t Hs) as Hd.
  destruct (update_dict_fn_settled t fuel v1 v1 h1
              (snapshot_view depth h1 v1 t Hs) Hset Hkeys ltac:(lia))
    as (v2 & h2 & E & V & _).
  exists v2, h2. split; [exact E|].
  now apply view_snapshot.
Qed.

Lemma C8_witness :
  exists v2 h2,
    update_dict_fn 4 (VRef 0) (VRef 0) None store_settled = Ret v2 h2
    /\ snapshot 2 h2 v2
       = Some (TDict [("a", TStr "x"); ("b", TDict [("c", TStr "x")]);
                      ("l", TList [TStr "x-1"])]).
Proof.
  apply (C8_second_application_keeps_settled_result 4 2 (VRef 0) (VRef 0)
           store_settling store_settled).
  - reflexivity.
  - reflexivity.
  - reflexivity.
  - reflexivity.
  - lia.
Defined.

(* ================================================================== *)
(** * Further properties of the str branch *)
(* ================================================================== *)

Lemma token_applies_absent (m : string) (tok : option string) :
  token_absent tok -> token_applies m tok = None.
Proof.
  intros [->| ->]; [reflexivity|].
  unfold token_applies. cbn. now rewrite andb_false_r.
Qed.

Lemma subst_matches_undotted (ms : list string) (tok : option string) :
  forallb (fun m => negb (PyStr.contains_char "." m)) ms = true ->
  token_absent tok ->
  forall (s : string) (u : val) (h : heap),
    subst_matches ms s u tok h = Ret (VStr s) h.
Proof.
  intros Hms Htok. induction ms as [|m ms IH]; intros s u h; [reflexivity|].
  simpl in Hms. apply andb_true_iff in Hms as [Hm Hms].
  apply negb_true_iff in Hm.
  cbn [subst_matches]. rewrite Hm, (token_applies_absent m tok Htok).
  now apply IH.
Qed.

(** X1: a string none of whose placeholder tokens has a dot comes back as
    it is, with the store untouched and the lookup table never read, when
    the idempotency token is [None] or empty: undotted placeholders, and
    [{idempotence_token}] without a token, are never resolved. *)
Theorem X1_undotted_tokens_are_left_alone (fuel : nat) (s : string) (u : val)
    (tok : option string) (h : heap) :
  forallb (fun m => negb (PyStr.contains_char "." m)) (PyStr.findall s) = true ->
  token_absent tok ->
  update_dict_fn (S fuel) (VStr s) u tok h = Ret (VStr s) h.
Proof.
  intros Hs Htok. rewrite update_dict_fn_str. unfold update_str.
  destruct (PyStr.contains_char "{" s && PyStr.contains_char "}" s);
    [now apply subst_matches_undotted | reflexivity].
Qed.

Lemma X1_witness :
  update_dict_fn 1 (VStr "name-{endpoint_name}-{idempotence_token}") VNone
                 (Some "") []
  = Ret (VStr "name-{endpoint_name}-{idempotence_token}") [].
Proof.
  apply (X1_undotted_tokens_are_left_alone 0).
  - reflexivity.
  - right. reflexivity.
Defined.

(** The string that lines 100-108 produce for one [{idempotence_token}]
    placeholder. *)
Lemma update_str_token (pre post t : string) (u : val) (h : heap) :
  PyStr.contains_char "{" pre = false ->
  PyStr.contains_char "{" post = false ->
  t <> "" ->
  update_str (pre ++ "{idempotence_token}" ++ post) u (Some t) h
  = Ret (VStr (if (63 <? PyStr.len (pre ++ t ++ post))%Z
               then pre ++ PyStr.slice_to t (63 - PyStr.len (pre ++ post)) ++ post
               else pre ++ t ++ post)) h.
Proof.
  intros Hpre Hpost Hne.
  assert (Ht : String.eqb t "" = false) by now apply String.eqb_neq.
  change "{idempotence_token}" with (PyStr.braced "idempotence_token") at 1.
  rewrite (update_str_first_placeholder pre "idempotence_token" post u (Some t) h
             Hpre ltac:(discriminate) eq_refl).
  unfold PyStr.findall. rewrite (findall_no_open post Hpost).
  cbn [subst_matches].
  change (PyStr.contains_char "." "idempotence_token") with false.
  cbv iota. unfold token_applies.
  change (String.eqb "idempotence_token" "idempotence_token") with true.
  rewrite Ht. cbn [negb andb].
  change (PyStr.braced "idempotence_token") with "{idempotence_token}".
  rewrite !replace_token_placeholder by assumption.
  cbn [append].
  destruct (63 <? PyStr.len (pre ++ t ++ post))%Z; reflexivity.
Qed.

(** X2: when the string with the whole token in it has at most 63
    characters, the whole token replaces [{idempotence_token}]. *)
Theorem X2_token_that_fits_is_inserted_whole (fuel : nat) (pre post t : string)
    (u : val) (h : heap) :
  PyStr.contains_char "{" pre = false ->
  PyStr.contains_char "{" post = false ->
  t <> "" ->
  String.length (pre ++ t ++ post) <= 63 ->
  update_dict_fn (S fuel) (VStr (pre ++ "{idempotence_token}" ++ post)) u (Some t) h
  = Ret (VStr (pre ++ t ++ post)) h.
Proof.
  intros Hpre Hpost Hne Hfit.
  rewrite update_dict_fn_str, update_str_token by assumption.
  replace (63 <? PyStr.len (pre ++ t ++ post))%Z with false; [reflexivity|].
  symmetry. apply Z.ltb_ge. unfold PyStr.len. lia.
Qed.

Lemma X2_witness :
  update_dict_fn 1 (VStr "endpoint-{idempotence_token}-v1") VNone (Some token_C5) []
  = Ret (VStr "endpoint-0123456789abcdef-v1") [].
Proof.
  apply (X2_token_that_fits_is_inserted_whole 0 "endpoint-" "-v1" token_C5 VNone []).
  - reflexivity.
  - reflexivity.
  - discriminate.
  - vm_compute. lia.
Defined.

(** X3: when the part of the string outside [{idempotence_token}] has more
    than 63 characters, the slice bound is negative: the token loses as
    many of its last characters as the rest exceeds 63 by (all of them,
    if it has no more), and the result is longer than 63. *)
Theorem X3_long_rest_cuts_token_from_its_end (fuel : nat) (pre post t : string)
    (u : val) (h : heap) :
  PyStr.contains_char "{" pre = false ->
  PyStr.contains_char "{" post = false ->
  t <> "" ->
  63 < String.length (pre ++ post) ->
  update_dict_fn (S fuel) (VStr (pre ++ "{idempotence_token}" ++ post)) u (Some t) h
  = Ret (VStr (pre
               ++ prefix_of_length
                    (String.length t - (String.length (pre ++ post) - 63)) t
               ++ post)) h
  /\ 63 < String.length
            (pre ++ prefix_of_length
                      (String.length t - (String.length (pre ++ post) - 63)) t
                 ++ post).
Proof.
  intros Hpre Hpost Hne Hrest.
  rewrite update_dict_fn_str, update_str_token by assumption.
  rewrite length_append in Hrest.
  split.
  - replace (63 <? PyStr.len (pre ++ t ++ post))%Z with true
      by (symmetry; apply Z.ltb_lt; unfold PyStr.len;
          rewrite !length_append; lia).
    unfold PyStr.slice_to, PyStr.len, prefix_of_length.
    rewrite !length_append.
    replace (63 - Z.of_nat (String.length pre + String.length post) <? 0)%Z
      with true by (symmetry; apply Z.ltb_lt; lia).
    do 4 f_equal.
    replace (Z.to_nat
               (Z.max (Z.of_nat (String.length t)
                       + (63 - Z.of_nat (String.length pre + String.length post))) 0))
      with (String.length t - (String.length pre + String.length post - 63)) by lia.
    reflexivity.
  - rewrite !length_append. lia.
Qed.

Lemma X3_witness :
  update_dict_fn 1 (VStr template_C5) VNone (Some token_C5) []
  = Ret (VStr ("0123456789012345678901234567890123456789012345678901234567890123456789-"
               ++ prefix_of_length
                    (String.length token_C5
                     - (String.length
                          ("0123456789012345678901234567890123456789012345678901234567890123456789-"
                           ++ "") - 63)) token_C5
               ++ "")) []
  /\ 63 < String.length
            ("0123456789012345678901234567890123456789012345678901234567890123456789-"
             ++ prefix_of_length
                  (String.length token_C5
                   - (String.length
                        ("0123456789012345678901234567890123456789012345678901234567890123456789-"
                         ++ "") - 63)) token_C5
             ++ "").
Proof.
  apply (X3_long_rest_cuts_token_from_its_end 0
           "0123456789012345678901234567890123456789012345678901234567890123456789-"
           "" token_C5 VNone []).
  - reflexivity.
  - reflexivity.
  - discriminate.
  - vm_compute. lia.
Defined.

Lemma traverse_stuck (h : heap) (v p : val) (ks1 ks2 : list string) (k : string) :
  resolves h v ks1 p ->
  (exists e, subscript h p k = inl e) ->
  traverse h v (ks1 ++ k :: ks2)
  = inl (ValueError ("Could not find the key " ++ k ++ " in " ++ py_str h p ++ ".")).
Proof.
  intros Hres [e He].
  induction Hres as [v|a d k1 v keys v' Ha Hk1 _ IH].
  - cbn [app traverse]. now rewrite He.
  - cbn [app traverse subscript]. rewrite Ha, Hk1. now apply IH.
Qed.

Lemma subscript_not_a_mapping (h : heap) (p : val) (k : string) :
  not_a_mapping h p -> exists e, subscript h p k = inl e.
Proof.
  destruct p as [| | | |b]; simpl; intros H; try (eexists; reflexivity).
  destruct H as [l ->]. eexists; reflexivity.
Qed.

Lemma not_a_mapping_extend (h ext : heap) (p : val) :
  not_a_mapping h p -> not_a_mapping (h ++ ext)%list p.
Proof.
  destruct p as [| | | |b]; simpl; auto.
  intros [l Hl]. exists l. now apply deref_app_old.
Qed.

(** X4: when the keys of a dotted path lead, after at least one key, to a
    value that is not a dict (a str, a number, [None], a list), the next
    key cannot index it: the [TypeError] of the subscript is caught and a
    [ValueError] naming that key and printing that value is raised. *)
Theorem X4_path_through_non_mapping_raises_ValueError (fuel : nat)
    (pre path post : string) (k1 : string) (ks1 ks2 : list string) (k : string)
    (a : addr) (d : list (string * val)) (p : val) (tok : option string)
    (h : heap) :
  PyStr.contains_char "{" pre = false ->
  PyStr.contains_char "." path = true ->
  PyStr.contains_char "}" path = false ->
  PyStr.split_dot path = (k1 :: ks1 ++ k :: ks2)%list ->
  deref h a = Some (ODict d) ->
  resolves h (VRef a) (k1 :: ks1) p ->
  not_a_mapping h p ->
  update_dict_fn (S fuel) (VStr (pre ++ PyStr.braced path ++ post)) (VRef a) tok h
  = Raise (ValueError ("Could not find the key " ++ k ++ " in "
                       ++ py_str (h ++ [ODict d])%list p ++ "."))
          (h ++ [ODict d])%list.
Proof.
  intros Hpre Hdot Hclose Hsplit Ha Hres Hp.
  rewrite update_dict_fn_str.
  rewrite (update_str_first_placeholder pre path post (VRef a) tok h
             Hpre (dotted_nonempty path Hdot) Hclose).
  cbn [subst_matches]. rewrite Hdot.
  unfold py_copy, alloc. rewrite Ha, Hsplit.
  change (k1 :: ks1 ++ k :: ks2)%list with ((k1 :: ks1) ++ k :: ks2)%list.
  rewrite (traverse_stuck (h ++ [ODict d])%list (VRef (List.length h)) p
             (k1 :: ks1) ks2 k
             (resolves_from_copy h a d k1 ks1 p Ha Hres)
             (subscript_not_a_mapping _ p k (not_a_mapping_extend h _ p Hp))).
  reflexivity.
Qed.

Lemma X4_witness :
  update_dict_fn 1 (VStr "{a.b.c}") (VRef 0) None store_X5
  = Raise (ValueError ("Could not find the key " ++ "c" ++ " in "
                       ++ py_str (store_X5 ++ [ODict [("a", VRef 1)]])%list
                                 (VStr "text") ++ "."))
          (store_X5 ++ [ODict [("a", VRef 1)]])%list.
Proof.
  apply (X4_path_through_non_mapping_raises_ValueError 0 "" "a.b.c" ""
           "a" ["b"] [] "c" 0 [("a", VRef 1)] (VStr "text") None store_X5).
  - reflexivity.
  - reflexivity.
  - reflexivity.
  - reflexivity.
  - reflexivity.
  - eapply resolves_cons; [reflexivity | reflexivity |].
    eapply resolves_cons; [reflexivity | reflexivity |].
    apply resolves_nil.
  - exact I.
Defined.

(* ================================================================== *)
(** * What [update_dict_fn] does to the objects of the store *)
(* ================================================================== *)

Lemma same_shape_refl (h : heap) : same_shape h h.
Proof.
  split; [lia|]. intros a. destruct (deref h a) as [[l|d]|]; eauto.
Qed.

Lemma same_shape_trans (h1 h2 h3 : heap) :
  same_shape h1 h2 -> same_shape h2 h3 -> same_shape h1 h3.
Proof.
  intros [L12 S12] [L23 S23]. split; [lia|].
  intros a. specialize (S12 a).
  destruct (deref h1 a) as [[l|d]|]; [| |exact I].
  - specialize (S23 a). now rewrite S12 in S23.
  - destruct S12 as (d2 & E2 & K2). specialize (S23 a). rewrite E2 in S23.
    destruct S23 as (d3 & E3 & K3). exists d3. split; congruence.
Qed.

Lemma same_shape_app (h ext : heap) : same_shape h (h ++ ext)%list.
Proof.
  split; [rewrite length_app; lia|].
  intros a. destruct (deref h a) as [[l|d]|] eqn:E; [| |exact I].
  - now apply deref_app_old.
  - exists d. split; [now apply deref_app_old | reflexivity].
Qed.

Lemma map_fst_dict_set (k : string) (v : val) (d : list (string * val)) :
  In k (map fst d) -> map fst (dict_set k v d) = map fst d.
Proof.
  induction d as [|[k0 v0] d IH]; simpl; [tauto|].
  intros Hin. destruct (String.eqb_spec k0 k) as [->|Hne]; [reflexivity|].
  simpl. f_equal. apply IH. destruct Hin; [congruence | assumption].
Qed.

Lemma same_shape_store (h : heap) (a : addr) (k : string) (v : val)
    (d : list (string * val)) :
  deref h a = Some (ODict d) ->
  In k (map fst d) ->
  same_shape h (store_item h a k v).
Proof.
  intros Ha Hk. split; [rewrite length_store_item; lia|].
  intros b. destruct (Nat.eq_dec a b) as [<-|Hne].
  - rewrite Ha. exists (dict_set k v d). split; [|now apply map_fst_dict_set].
    unfold store_item. rewrite Ha. unfold deref.
    apply nth_error_set_nth_eq. eapply deref_lt; eauto.
  - rewrite (deref_store_item_other h a b k v Hne).
    destruct (deref h b) as [[l|d0]|]; eauto.
Qed.

Section Shape.

Variable F : val -> heap -> outcome val.
Hypothesis F_shape : forall v h, same_shape h (heap_of (F v h)).

Lemma map_items_shape (items : list val) :
  forall h, same_shape h (heap_of (map_items F items h)).
Proof.
  induction items as [|x items IH]; intros h; [apply same_shape_refl|].
  cbn [map_items]. pose proof (F_shape x h) as Hx.
  destruct (F x h) as [y h1|e h1]; cbn [heap_of] in Hx; [|exact Hx].
  pose proof (IH h1) as Hr.
  destruct (map_items F items h1) as [ys h2|e h2]; cbn [heap_of] in *;
    eapply same_shape_trans; eauto.
Qed.


Lemma dict_loop_shape (a : addr) (n : nat) :
  forall i h, same_shape h (heap_of (dict_loop F a i n h)).
Proof.
  induction n as [|n IH]; intros i h; [apply same_shape_refl|].
  cbn [dict_loop].
  destruct (deref h a) as [[l|d]|] eqn:Ha; try apply same_shape_refl.
  destruct (nth_error d i) as [[k v]|] eqn:Hnth; [|apply same_shape_refl].
  pose proof (F_shape v h) as Hv.
  destruct (F v h) as [v' h1|e h1]; cbn [heap_of] in Hv; [|exact Hv].
  eapply same_shape_trans; [exact Hv|].
  eapply same_shape_trans; [|apply IH].
  destruct Hv as [_ Hv]. specialize (Hv a). rewrite Ha in Hv.
  destruct Hv as (d1 & Ha1 & Hk).
  apply (same_shape_store h1 a k v' d1 Ha1).
  rewrite Hk. apply nth_error_In in Hnth.
  exact (in_map fst d (k, v) Hnth).
Qed.

End Shape.

Lemma update_dict_fn_shape (fuel : nat) :
  forall (v u : val) (tok : option string) (h : heap),
    same_shape h (heap_of (update_dict_fn fuel v u tok h)).
Proof.
  induction fuel as [|f IH]; intros v u tok h; [apply same_shape_refl|].
  destruct v as [| | |s|a]; try apply same_shape_refl.
  - cbn [update_dict_fn].
    destruct (update_str_extends s u tok h) as [ext ->].
    apply same_shape_app.
  - cbn [update_dict_fn].
    destruct (deref h a) as [[l|d]|] eqn:Ha; [| |apply same_shape_refl].
    + pose proof (map_items_shape (fun item => update_dict_fn f item u tok)
                    (fun v h => IH v u tok h) l h) as Hl.
      destruct (map_items _ l h) as [items' h1|e h1]; cbn [heap_of] in Hl;
        [|exact Hl].
      unfold alloc. cbn [heap_of].
      eapply same_shape_trans; [exact Hl | apply same_shape_app].
    + pose proof (dict_loop_shape (fun value => update_dict_fn f value u tok)
                    (fun v h => IH v u tok h) a (List.length d) 0 h) as Hd.
      destruct (dict_loop _ a 0 (List.length d) h); exact Hd.
Qed.

(** X5: whatever the config, the lookup table and the token, and whether
    the call returns or raises, [update_dict_fn] removes no object, writes
    into no list object, and leaves every dict object a dict with the same
    keys in the same order: only values of existing keys are assigned. *)
Theorem X5_lists_are_never_written_and_dict_keys_never_change (fuel : nat)
    (original_dict update_dict : val) (idempotence_token : option string)
    (h : heap) :
  same_shape h (heap_of (update_dict_fn fuel original_dict update_dict
                                        idempotence_token h)).
Proof. apply update_dict_fn_shape. Qed.





(* ================================================================== *)
(** * [sorted_dict_str] and the order of entries and items *)
(* ================================================================== *)

Lemma ltb_Lt (a b : string) : String.ltb a b = true <-> String.compare a b = Lt.
Proof.
  unfold String.ltb. destruct (String.compare a b); split; congruence.
Qed.

Lemma ltb_asym (a b : string) : String.ltb a b = true -> String.ltb b a = false.
Proof.
  intros H. apply ltb_Lt in H.
  destruct (String.ltb b a) eqn:E; [|reflexivity].
  apply ltb_Lt in E.
  pose proof (OrderedTypeEx.String_as_OT.cmp_antisym a b) as A.
  unfold OrderedTypeEx.String_as_OT.cmp in A. rewrite H, E in A. discriminate.
Qed.

Lemma ltb_total (a b : string) :
  String.ltb a b = false -> String.ltb b a = false -> a = b.
Proof.
  intros Hab Hba. apply OrderedTypeEx.String_as_OT.cmp_eq.
  unfold OrderedTypeEx.String_as_OT.cmp.
  destruct (String.compare a b) eqn:E; [reflexivity| |].
  - apply ltb_Lt in E. congruence.
  - pose proof (OrderedTypeEx.String_as_OT.cmp_antisym b a) as A.
    unfold OrderedTypeEx.String_as_OT.cmp in A. rewrite E in A. simpl in A.
    apply ltb_Lt in A. congruence.
Qed.

Lemma ltb_trans (a b c : string) :
  String.ltb a b = true -> String.ltb b c = true -> String.ltb a c = true.
Proof.
  rewrite !ltb_Lt. intros Hab Hbc.
  apply OrderedTypeEx.String_as_OT.cmp_lt.
  eapply OrderedTypeEx.String_as_OT.lt_trans;
    apply OrderedTypeEx.String_as_OT.cmp_lt; eassumption.
Qed.

Lemma ltb_le_lt (y z x : string) :
  String.ltb z y = false -> String.ltb z x = true -> String.ltb y x = true.
Proof.
  intros Hzy Hzx. destruct (String.ltb y z) eqn:Hyz.
  - eapply ltb_trans; eauto.
  - now rewrite (ltb_total y z Hyz Hzy).
Qed.

Lemma insert_by_comm {A : Type} (key : A -> string) (x y : A) (l : list A) :
  (key x = key y -> x = y) ->
  insert_by key x (insert_by key y l) = insert_by key y (insert_by key x l).
Proof.
  intros Hinj. induction l as [|z l IH].
  - simpl. destruct (String.ltb (key y) (key x)) eqn:Hyx.
    + now rewrite (ltb_asym _ _ Hyx).
    + destruct (String.ltb (key x) (key y)) eqn:Hxy; [reflexivity|].
      now rewrite (Hinj (ltb_total _ _ Hxy Hyx)).
  - cbn [insert_by].
    destruct (String.ltb (key z) (key y)) eqn:Hzy;
      destruct (String.ltb (key z) (key x)) eqn:Hzx;
      cbn [insert_by]; rewrite ?Hzy, ?Hzx.
    + now rewrite IH.
    + now rewrite (ltb_le_lt _ _ _ Hzx Hzy).
    + now rewrite (ltb_le_lt _ _ _ Hzy Hzx).
    + destruct (String.ltb (key y) (key x)) eqn:Hyx.
      * now rewrite (ltb_asym _ _ Hyx).
      * destruct (String.ltb (key x) (key y)) eqn:Hxy; [reflexivity|].
        now rewrite (Hinj (ltb_total _ _ Hxy Hyx)).
Qed.

(** Sorting forgets the order of a list whose elements differ in their
    keys. *)
Lemma sorted_by_permutation {A : Type} (key : A -> string) (l1 l2 : list A) :
  Permutation l1 l2 ->
  (forall x y, In x l1 -> In y l1 -> key x = key y -> x = y) ->
  sorted_by key l1 = sorted_by key l2.
Proof.
  induction 1 as [|x l l' _ IH|x y l|l l' l'' H1 IH1 H2 IH2]; intros Hinj.
  - reflexivity.
  - simpl. rewrite IH; [reflexivity|]. intros; apply Hinj; simpl; auto.
  - simpl. apply insert_by_comm. intros E.
    symmetry. apply Hinj; simpl; auto.
  - rewrite IH1 by exact Hinj. apply IH2.
    intros x y Hx Hy. apply Hinj; eapply Permutation_in;
      try eassumption; now apply Permutation_sym.
Qed.

Lemma NoDup_keys_inj (d : list (string * val)) :
  NoDup (map fst d) ->
  forall x y, In x d -> In y d -> fst x = fst y -> x = y.
Proof.
  induction d as [|e d IH]; simpl; [tauto|].
  intros Hnd x y Hx Hy E. apply NoDup_cons_iff in Hnd as [Hn Hnd].
  destruct Hx as [<-|Hx], Hy as [<-|Hy]; auto.
  - exfalso. apply Hn. rewrite E. now apply in_map.
  - exfalso. apply Hn. rewrite <- E. now apply in_map.
Qed.

Lemma insert_by_Forall2 {A : Type} (key : A -> string) (R : A -> A -> Prop)
    (x y : A) (l l' : list A) :
  (forall a b, R a b -> key a = key b) ->
  R x y -> Forall2 R l l' ->
  Forall2 R (insert_by key x l) (insert_by key y l').
Proof.
  intros HR Hxy HF. induction HF as [|a b l l' Hab HF' IH]; simpl.
  - repeat constructor. exact Hxy.
  - rewrite <- (HR _ _ Hab), <- (HR _ _ Hxy).
    destruct (String.ltb (key a) (key x)); repeat constructor; auto.
Qed.

Lemma sorted_by_Forall2 {A : Type} (key : A -> string) (R : A -> A -> Prop)
    (l l' : list A) :
  (forall a b, R a b -> key a = key b) ->
  Forall2 R l l' ->
  Forall2 R (sorted_by key l) (sorted_by key l').
Proof.
  intros HR HF. induction HF as [|a b l l' Hab _ IH]; simpl; [constructor|].
  now apply insert_by_Forall2.
Qed.

Lemma map_exn_Forall2 {A B : Type} (f g : A -> exn + B) (l l' : list A) :
  Forall2 (fun a b => f a = g b) l l' -> map_exn f l = map_exn g l'.
Proof.
  induction 1 as [|a b l l' Hab _ IH]; simpl; [reflexivity|].
  now rewrite Hab, IH.
Qed.

Lemma insert_by_map {A : Type} (key : A -> string) (x : A) (l : list A) :
  map key (insert_by key x l) = insert_by (fun s => s) (key x) (map key l).
Proof.
  induction l as [|y l IH]; simpl; [reflexivity|].
  destruct (String.ltb (key y) (key x)); simpl; [now rewrite IH | reflexivity].
Qed.

Lemma sorted_by_map {A : Type} (key : A -> string) (l : list A) :
  map key (sorted_by key l) = sorted_by (fun s => s) (map key l).
Proof.
  induction l as [|x l IH]; simpl; [reflexivity|].
  now rewrite insert_by_map, IH.
Qed.

Lemma insert_by_In {A : Type} (key : A -> string) (x y : A) (l : list A) :
  In y (insert_by key x l) <-> y = x \/ In y l.
Proof.
  induction l as [|z l IH]; simpl; [intuition congruence|].
  destruct (String.ltb (key z) (key x)); simpl; rewrite ?IH; intuition congruence.
Qed.

Lemma sorted_by_In {A : Type} (key : A -> string) (y : A) (l : list A) :
  In y (sorted_by key l) <-> In y l.
Proof.
  induction l as [|x l IH]; simpl; [tauto|].
  rewrite insert_by_In, IH. intuition congruence.
Qed.

Lemma map_exn_scalars (f : nat) (h : heap) (l : list val) :
  Forall (fun x => is_scalar x = true) l ->
  map_exn (sorted_dict_str (S f) h) l = inr (map (py_str h) l).
Proof.
  induction 1 as [|x l Hx _ IH]; [reflexivity|].
  cbn [map_exn map]. rewrite IH.
  destruct x; try discriminate; reflexivity.
Qed.

Lemma map_exn_no_fuel (h : heap) (l : list val) :
  l <> [] -> map_exn (sorted_dict_str 0 h) l = inl RecursionError.
Proof. destruct l; [congruence | reflexivity]. Qed.

Lemma sorted_dict_str_reordered (n : nat) :
  forall (h : heap) (v1 v2 : val) (fuel : nat),
    reordered n h v1 v2 ->
    sorted_dict_str fuel h v1 = sorted_dict_str fuel h v2.
Proof.
  assert (Hlist : forall h a1 a2 l1 l2 fuel,
             deref h a1 = Some (OList l1) -> deref h a2 = Some (OList l2) ->
             forallb is_scalar l1 = true -> Permutation l1 l2 ->
             sorted_dict_str fuel h (VRef a1) = sorted_dict_str fuel h (VRef a2)).
  { intros h a1 a2 l1 l2 fuel H1 H2 Hsc Hp.
    destruct fuel as [|f]; [reflexivity|].
    cbn [sorted_dict_str]. rewrite H1, H2.
    assert (Hsc1 : Forall (fun x => is_scalar x = true) (sorted_by (py_str h) l1)).
    { apply Forall_forall. intros x Hx. apply sorted_by_In in Hx.
      rewrite forallb_forall in Hsc. auto. }
    assert (Hsc2 : Forall (fun x => is_scalar x = true) (sorted_by (py_str h) l2)).
    { apply Forall_forall. intros x Hx. apply sorted_by_In in Hx.
      rewrite forallb_forall in Hsc. apply Hsc.
      eapply Permutation_in; [apply Permutation_sym; exact Hp | exact Hx]. }
    destruct f as [|f].
    - destruct l1 as [|x1 l1].
      + apply Permutation_nil in Hp. subst l2. reflexivity.
      + assert (N1 : sorted_by (py_str h) (x1 :: l1) <> []).
        { intros E. assert (H : In x1 (sorted_by (py_str h) (x1 :: l1)))
            by (apply sorted_by_In; now left).
          rewrite E in H. destruct H. }
        assert (N2 : sorted_by (py_str h) l2 <> []).
        { intros E. assert (H : In x1 (sorted_by (py_str h) l2))
            by (apply sorted_by_In; eapply Permutation_in; [exact Hp | now left]).
          rewrite E in H. destruct H. }
        now rewrite !map_exn_no_fuel by assumption.
    - rewrite !map_exn_scalars by assumption.
      rewrite !sorted_by_map.
      rewrite (sorted_by_permutation (fun s => s) (map (py_str h) l1)
                 (map (py_str h) l2)); [reflexivity | |auto].
      now apply Permutation_map. }
  induction n as [|n IH]; intros h v1 v2 fuel Hr; cbn [reordered] in Hr.
  - destruct Hr as [->|[(a1 & a2 & l1 & l2 & -> & -> & H1 & H2 & Hsc & Hp)|[]]];
      [reflexivity | eapply Hlist; eauto].
  - destruct Hr as [->|[(a1 & a2 & l1 & l2 & -> & -> & H1 & H2 & Hsc & Hp)
                       |(a1 & a2 & d1 & d2 & d1' & -> & -> & H1 & H2 & Hnd & Hp & HF)]];
      [reflexivity | eapply Hlist; eauto |].
    destruct fuel as [|f]; [reflexivity|].
    cbn [sorted_dict_str]. rewrite H1, H2.
    rewrite (sorted_by_permutation fst d1 d1' Hp (NoDup_keys_inj d1 Hnd)).
    pose proof (sorted_by_Forall2 fst _ d1' d2 (fun a b H => proj1 H) HF) as HS.
    rewrite (map_exn_Forall2 _
               (fun kv => match sorted_dict_str f h (snd kv) with
                          | inl e => inl e
                          | inr sv => inr (fst kv ++ ": " ++ sv)
                          end) _ (sorted_by fst d2)); [reflexivity|].
    eapply Forall2_impl; [|exact HS].
    intros e1 e2 [Hk Hv]. cbv beta. rewrite Hk, (IH h _ _ f Hv). reflexivity.
Qed.

(** X8: the canonical string does not depend on the order in which the
    entries of a dict were inserted, at any depth of dicts inside dicts,
    nor on the order of the items of a list whose items are not
    containers.  (The same holds for the exception, when the recursion
    limit is reached.) *)
Theorem X8_canonical_string_ignores_dict_order (n fuel : nat) (h : heap)
    (v1 v2 : val) :
  reordered n h v1 v2 ->
  sorted_dict_str fuel h v1 = sorted_dict_str fuel h v2.
Proof. intros H. now apply sorted_dict_str_reordered with (n := n). Qed.

Lemma X8_witness :
  sorted_dict_str 4 store_X8 (VRef 2) = sorted_dict_str 4 store_X8 (VRef 5).
Proof.
  apply (X8_canonical_string_ignores_dict_order 2 4 store_X8 (VRef 2) (VRef 5)).
  right. right.
  exists 2, 5, [("a", VInt 1); ("b", VRef 1)], [("b", VRef 4); ("a", VInt 1)],
         [("b", VRef 1); ("a", VInt 1)].
  repeat split.
  - constructor; [simpl; intros [H|[]]; discriminate H|].
    constructor; [simpl; tauto | constructor].
  - apply perm_swap.
  - constructor; [split; [reflexivity|]|].
    + right. right.
      exists 1, 4, [("x", VRef 0); ("y", VNone)], [("y", VNone); ("x", VRef 3)],
             [("y", VNone); ("x", VRef 0)].
      repeat split.
      * constructor; [simpl; intros [H|[]]; discriminate H|].
        constructor; [simpl; tauto | constructor].
      * apply perm_swap.
      * constructor; [split; [reflexivity | left; reflexivity]|].
        constructor; [split; [reflexivity|] | constructor].
        right. left.
        exists 0, 3, [VInt 2; VInt 1], [VInt 1; VInt 2].
        repeat split. apply perm_swap.
    + constructor; [split; [reflexivity | left; reflexivity] | constructor].
Defined.

(* ================================================================== *)
(** * Further properties of [_call] *)
(* ================================================================== *)

Lemma dict_get_set_same (k : string) (v : val) (d : list (string * val)) :
  dict_get k (dict_set k v d) = Some v.
Proof.
  induction d as [|[k0 v0] d IH]; simpl.
  - now rewrite String.eqb_refl.
  - destruct (String.eqb_spec k0 k) as [->|Hne]; simpl.
    + now rewrite String.eqb_refl.
    + destruct (String.eqb_spec k0 k); [congruence | exact IH].
Qed.

Lemma dict_get_fold_set_other (k : string) (es acc : list (string * val)) :
  ~ In k (map fst es) ->
  dict_get k (fold_left (fun d kv => dict_set (fst kv) (snd kv) d) es acc)
  = dict_get k acc.
Proof.
  revert acc. induction es as [|[k0 v0] es IH]; intros acc Hin; [reflexivity|].
  simpl in *. rewrite IH by tauto.
  apply dict_get_set_other. intros ->. tauto.
Qed.

Lemma dict_get_fold_set_present (k : string) (v : val)
    (es acc : list (string * val)) :
  NoDup (map fst es) ->
  In (k, v) es ->
  dict_get k (fold_left (fun d kv => dict_set (fst kv) (snd kv) d) es acc)
  = Some v.
Proof.
  revert acc. induction es as [|[k0 v0] es IH]; intros acc Hnd Hin; [destruct Hin|].
  simpl in Hnd. apply NoDup_cons_iff in Hnd as [Hn Hnd].
  destruct Hin as [E|Hin].
  - injection E as -> ->. simpl.
    rewrite dict_get_fold_set_other by exact Hn.
    apply dict_get_set_same.
  - simpl. now apply IH.
Qed.

Lemma alloc_each_str_entry (entries : list (string * pytree)) (h : heap)
    (k s : string) :
  In (k, TStr s) entries ->
  In (k, VStr s)
     (fst (alloc_each
             (fun kx h0 => let (v, h1) := alloc_tree (snd kx) h0 in
                           ((fst kx, v), h1)) entries h)).
Proof.
  revert h. induction entries as [|kx l IH]; intros h Hin; [destruct Hin|].
  cbn [alloc_each].
  destruct (alloc_tree (snd kx) h) as [v h1] eqn:Ev.
  specialize (IH h1).
  destruct (alloc_each _ l h1) as [es h2].
  destruct Hin as [->|Hin].
  - simpl in Ev. injection Ev as <- _. now left.
  - right. apply IH, Hin.
Qed.

Section CallFacts.

Variable LiteralMap : Type.
Variable literal_map_truthy : LiteralMap -> bool.
Variable literal_map_string_repr : LiteralMap -> list (string * pytree).
Variable str_format : string -> list (string * string) -> exn + string.
Variable xxh64_hexdigest : string -> string.
Variable Response : Type.
Variable invoke : string -> val -> string -> val -> heap -> (Response + exn).

(** Lines 171-173: the store after [args["inputs"] = ...], and what
    [args["inputs"].get("region")] finds. *)
Lemma inputs_in_store (lm : LiteralMap) (h : heap) :
  forall iv h',
    alloc_tree (TDict (literal_map_string_repr lm)) (h ++ [ODict []])%list = (iv, h') ->
    let h'' := store_item h' (List.length h) "inputs" iv in
    (forall a, a < List.length h -> deref h'' a = deref h a)
    /\ (~ In "region" (map fst (literal_map_string_repr lm)) ->
        subscript h'' iv "region" = inl (KeyError "region"))
    /\ (forall r, NoDup (map fst (literal_map_string_repr lm)) ->
                  In ("region", TStr r) (literal_map_string_repr lm) ->
                  subscript h'' iv "region" = inr (VStr r)).
Proof.
  intros iv h' E. cbn [alloc_tree] in E. unfold alloc in E.
  pose proof (alloc_each_keys (literal_map_string_repr lm) (h ++ [ODict []])%list)
    as Hkeys.
  pose proof (fun r => alloc_each_str_entry (literal_map_string_repr lm)
                         (h ++ [ODict []])%list "region" r) as Hentry.
  assert (Hext : exists ext,
             snd (alloc_each
                    (fun kx h0 => let (v, h1) := alloc_tree (snd kx) h0 in
                                  ((fst kx, v), h1))
                    (literal_map_string_repr lm) (h ++ [ODict []])%list)
             = ((h ++ [ODict []]) ++ ext)%list).
  { apply (alloc_each_extends _ (fun _ => True)); [|apply Forall_forall; auto].
    intros kx h0 _. destruct (alloc_tree_extends (snd kx) h0) as [e Ee].
    exists e. destruct (alloc_tree (snd kx) h0). exact Ee. }
  destruct Hext as [ext Hext].
  destruct (alloc_each _ (literal_map_string_repr lm) (h ++ [ODict []])%list)
    as [es hx].
  simpl in Hkeys, Hext, Hentry. subst hx. injection E as <- <-.
  set (D := fold_left (fun d kv => dict_set (fst kv) (snd kv) d) es []).
  set (hx := ((h ++ [ODict []]) ++ ext)%list).
  assert (Hlen : List.length h < List.length hx).
  { unfold hx. rewrite !length_app. simpl. lia. }
  assert (Hiv : deref (store_item (hx ++ [ODict D])%list (List.length h) "inputs"
                                  (VRef (List.length hx)))
                      (List.length hx) = Some (ODict D)).
  { rewrite deref_store_item_other by lia. apply deref_alloc_new. }
  cbv zeta. repeat split.
  - intros a Ha. rewrite deref_store_item_other by lia.
    unfold hx. rewrite <- !app_assoc. now apply deref_app_lt.
  - intros Hno. unfold subscript. rewrite Hiv. unfold D.
    now rewrite (dict_get_fold_set_absent "region" es []) by (rewrite ?Hkeys; auto).
  - intros r Hnd Hin. unfold subscript. rewrite Hiv. unfold D.
    rewrite (dict_get_fold_set_present "region" (VStr r) es []);
      [reflexivity | now rewrite Hkeys | now apply Hentry].
Qed.

End CallFacts.

Lemma truthy_nonempty_str (h : heap) (r : string) :
  r <> "" -> truthy h (VStr r) = true.
Proof. intros H. simpl. apply negb_true_iff. now apply String.eqb_neq. Qed.

Section Images.

Variable str_format : string -> list (string * string) -> exn + string.

Lemma rewrite_image_cases (r base : string) (image : val) :
  ~ In r (map fst account_id_map) ->
  rewrite_image str_format r base image
  = if is_triton_image image then inl (KeyError r) else inr image.
Proof.
  intros Hr. unfold rewrite_image, is_triton_image.
  destruct image as [| | |s|]; try reflexivity.
  destruct (PyStr.contains "sagemaker-tritonserver" s); [|reflexivity].
  match goal with
  | |- context [match ?g r account_id_map with _ => _ end] =>
      assert (Hg : forall m, ~ In r (map fst m) -> g r m = None)
  end.
  { intros m. induction m as [|[k v] m IH]; intros Hm; [reflexivity|].
    simpl in Hm. destruct (String.eqb_spec k r) as [->|Hne]; [tauto|].
    apply IH. tauto. }
  now rewrite (Hg account_id_map Hr).
Qed.

Lemma map_exn_images_unknown_region (r base : string) (d : list (string * val)) :
  ~ In r (map fst account_id_map) ->
  map_exn (fun kv => match rewrite_image str_format r base (snd kv) with
                     | inl e => inl e
                     | inr v => inr (fst kv, v)
                     end) d
  = if existsb (fun kv => is_triton_image (snd kv)) d
    then inl (KeyError r) else inr d.
Proof.
  intros Hr. induction d as [|[k v] d IH]; [reflexivity|].
  cbn [map_exn existsb fst snd]. rewrite (rewrite_image_cases r base v Hr).
  destruct (is_triton_image v); [reflexivity|].
  rewrite IH. cbn [orb].
  destruct (existsb (fun kv => is_triton_image (snd kv)) d); reflexivity.
Qed.

(** X11: the images dict that [_call] puts into [args] has, for a region
    that [account_id_map] does not have, the images as they were, when none
    of them is a str with the marker: the table is consulted for marked
    images only. *)
Theorem X11_unmarked_images_pass_through (a_args a : addr) (r : string)
    (d : list (string * val)) (h : heap) :
  ~ In r (map fst account_id_map) ->
  deref h a = Some (ODict d) ->
  d <> [] ->
  existsb (fun kv => is_triton_image (snd kv)) d = false ->
  add_images str_format a_args (VStr r) (VRef a) h
  = Ret tt (store_item (h ++ [ODict d])%list a_args "images"
                       (VRef (List.length h))).
Proof.
  intros Hunknown Ha Hne Hnone. unfold add_images, alloc.
  cbn [truthy]. rewrite Ha.
  destruct d as [|e0 d0]; [congruence|].
  now rewrite (map_exn_images_unknown_region r _ (e0 :: d0) Hunknown), Hnone.
Qed.

End Images.

Ltac settle_region Hne :=
  unfold py_or;
  repeat (cbn [truthy val_of_opt_str negb String.eqb]; rewrite ?Hne).

Section CallTheorems.

Variable LiteralMap : Type.
Variable literal_map_truthy : LiteralMap -> bool.
Variable literal_map_string_repr : LiteralMap -> list (string * pytree).
Variable str_format : string -> list (string * string) -> exn + string.
Variable xxh64_hexdigest : string -> string.
Variable Response : Type.
Variable invoke : string -> val -> string -> val -> heap -> (Response + exn).


(** With the region chosen by the precedence of line 175, [_call] goes on
    with that region. *)
Lemma _call_region (fuel : nat) (self : Boto3AgentMixin) (method : string)
    (config images : val) (inputs : option LiteralMap) (region : option string)
    (r : string) (h : heap) :
  region_chosen LiteralMap literal_map_truthy literal_map_string_repr
                inputs region (_region self) r ->
  exists h1,
    (forall a, a < List.length h -> deref h1 a = deref h a)
    /\ _call LiteralMap literal_map_truthy literal_map_string_repr str_format
             xxh64_hexdigest Response invoke
             fuel self method config images inputs region h
       = call_tail str_format xxh64_hexdigest Response invoke
                   fuel self method config images (VStr r)
                   (List.length h) h1.
Proof.
  intros [Hr Hcases].
  assert (Hne : String.eqb r "" = false) by now apply String.eqb_neq.
  assert (Hframe0 : forall a, a < List.length h ->
                      deref (h ++ [ODict []])%list a = deref h a)
    by (intros a Ha; now apply deref_app_lt).
  unfold _call, alloc, call_tail.
  destruct Hcases as [Hin|[[Hno ->]|(Hno & Hreg & Hdef)]].
  - destruct inputs as [lm|]; [|destruct Hin].
    destruct Hin as (-> & Hnd & Hin).
    destruct (alloc_tree (TDict (literal_map_string_repr lm)) (h ++ [ODict []])%list)
      as [iv h'] eqn:E.
    destruct (inputs_in_store LiteralMap literal_map_string_repr lm h iv h' E)
      as (Hframe & _ & Hsub).
    rewrite (Hsub r Hnd Hin). settle_region Hne.
    eexists. split; [exact Hframe | reflexivity].
  - destruct inputs as [lm|]; [destruct (literal_map_truthy lm) eqn:Etr|].
    + destruct Hno as [Hno|Hno]; [congruence|].
      destruct (alloc_tree (TDict (literal_map_string_repr lm)) (h ++ [ODict []])%list)
        as [iv h'] eqn:E.
      destruct (inputs_in_store LiteralMap literal_map_string_repr lm h iv h' E)
        as (Hframe & Hsub & _).
      rewrite (Hsub Hno). settle_region Hne.
      eexists. split; [exact Hframe | reflexivity].
    + settle_region Hne.
      eexists. split; [exact Hframe0 | reflexivity].
    + settle_region Hne.
      eexists. split; [exact Hframe0 | reflexivity].
  - rewrite Hdef.
    destruct inputs as [lm|]; [destruct (literal_map_truthy lm) eqn:Etr|].
    + destruct Hno as [Hno|Hno]; [congruence|].
      destruct (alloc_tree (TDict (literal_map_string_repr lm)) (h ++ [ODict []])%list)
        as [iv h'] eqn:E.
      destruct (inputs_in_store LiteralMap literal_map_string_repr lm h iv h' E)
        as (Hframe & Hsub & _).
      rewrite (Hsub Hno).
      destruct Hreg as [->| ->]; settle_region Hne;
        (eexists; split; [exact Hframe | reflexivity]).
    + destruct Hreg as [->| ->]; settle_region Hne;
        (eexists; split; [exact Hframe0 | reflexivity]).
    + destruct Hreg as [->| ->]; settle_region Hne;
        (eexists; split; [exact Hframe0 | reflexivity]).
Qed.


Lemma call_tail_remote_calls (fuel : nat) (self : Boto3AgentMixin)
    (method : string) (config images final_region : val) (a_args : addr)
    (h1 : heap) :
  forall service reg m c,
    In (EvRemoteCall service reg m c)
       (call_trace Response
          (call_tail str_format xxh64_hexdigest Response invoke
                     fuel self method config images final_region a_args h1)) ->
    reg = final_region /\ service = _service self /\ m = method.
Proof.
  unfold call_tail. intros service reg m c.
  destruct (add_images str_format a_args final_region images h1) as [[] h2|e h2];
    [|intros []].
  destruct (update_dict_fn fuel config (VRef a_args) None h2) as [u h3|e h3];
    [|simpl; intros [H|[]]; discriminate H].
  assert (Hremote : forall u' hash h' t,
             (forall s' r' m' c', ~ In (EvRemoteCall s' r' m' c') t) ->
             In (EvRemoteCall service reg m c)
                (call_trace Response
                   (remote_call Response invoke self final_region method u' hash h' t)) ->
             reg = final_region /\ service = _service self /\ m = method).
  { intros u' hash h' t Ht. unfold remote_call.
    destruct (invoke (_service self) final_region method u' h') as [res|e];
      [|destruct e]; cbn [call_trace]; intros Hin;
      apply in_app_iff in Hin as [Hin|[Hin|[]]];
      try (exfalso; eapply Ht; exact Hin);
      injection Hin as <- <- <- <-; auto. }
  destruct (PyStr.contains "idempotence_token" (py_str h3 u)).
  - destruct (sorted_dict_str fuel h3 u) as [e|canonical];
      [simpl; intros [H|[]]; discriminate H|].
    destruct (update_dict_fn fuel u (VRef a_args) (Some (xxh64_hexdigest canonical)) h3)
      as [u' h4|e h4].
    + apply Hremote. intros s' r' m' c' [H|[H|[]]]; discriminate H.
    + simpl; intros [H|[H|[]]]; discriminate H.
  - apply Hremote. intros s' r' m' c' [H|[]]; discriminate H.
Qed.

(** X9: the boto3 method is called for the region that line 175 picks: the
    region carried by the inputs if there is one, else the (non-empty)
    [region] argument, else the constructor's default; and it is the
    method asked for, on the service of the constructor. *)
Theorem X9_remote_call_uses_the_region_by_precedence (fuel : nat)
    (self : Boto3AgentMixin) (method : string) (config images : val)
    (inputs : option LiteralMap) (region : option string) (r : string)
    (h : heap) (service : string) (reg : val) (m : string) (c : val) :
  region_chosen LiteralMap literal_map_truthy literal_map_string_repr
                inputs region (_region self) r ->
  In (EvRemoteCall service reg m c)
     (call_trace Response
        (_call LiteralMap literal_map_truthy literal_map_string_repr str_format
               xxh64_hexdigest Response invoke
               fuel self method config images inputs region h)) ->
  reg = VStr r /\ service = _service self /\ m = method.
Proof.
  intros Hr Hin.
  destruct (_call_region fuel self method config images inputs region r h Hr)
    as (h1 & _ & E).
  rewrite E in Hin. eapply call_tail_remote_calls; eauto.
Qed.

(** X10: with a region that [account_id_map] does not have and an images
    dict in which some image is a str with the marker
    ["sagemaker-tritonserver"], [_call] raises [KeyError] of the region,
    before any call of [update_dict_fn] or of the boto3 method, and no
    object that existed has changed. *)
Theorem X10_unknown_region_with_triton_image_raises_KeyError (fuel : nat)
    (self : Boto3AgentMixin) (method : string) (config : val) (a : addr)
    (d : list (string * val)) (inputs : option LiteralMap)
    (region : option string) (r : string) (h : heap) :
  region_chosen LiteralMap literal_map_truthy literal_map_string_repr
                inputs region (_region self) r ->
  ~ In r (map fst account_id_map) ->
  deref h a = Some (ODict d) ->
  existsb (fun kv => is_triton_image (snd kv)) d = true ->
  exists h1,
    _call LiteralMap literal_map_truthy literal_map_string_repr str_format
          xxh64_hexdigest Response invoke
          fuel self method config (VRef a) inputs region h
    = {| call_outcome := Raise (KeyError r) h1; call_trace := [] |}
    /\ (forall b, b < List.length h -> deref h1 b = deref h b).
Proof.
  intros Hr Hunknown Ha Hmarked.
  destruct (_call_region fuel self method config (VRef a) inputs region r h Hr)
    as (h1 & Hframe & E).
  exists h1. split; [|exact Hframe].
  rewrite E. unfold call_tail, add_images.
  assert (Ha1 : deref h1 a = Some (ODict d))
    by (rewrite Hframe; [exact Ha | eapply deref_lt; eauto]).
  cbn [truthy]. rewrite Ha1.
  destruct d as [|e0 d0]; [discriminate Hmarked|].
  rewrite (map_exn_images_unknown_region str_format r _ (e0 :: d0) Hunknown), Hmarked.
  reflexivity.
Qed.



End CallTheorems.

Lemma X9_witness :
  VStr "us-west-2" = VStr "us-west-2"
  /\ "sagemaker" = _service {| _service := "sagemaker"; _region := Some "eu-west-1" |}
  /\ "create_endpoint" = "create_endpoint".
Proof.
  apply (X9_remote_call_uses_the_region_by_precedence
           unit (fun _ => true)
           (fun _ => [("name", TStr "my-endpoint"); ("region", TStr "us-west-2")])
           (fun s _ => inr s) (fun _ => "0123456789abcdef") unit
           (fun _ _ _ _ _ => inl tt)
           3 {| _service := "sagemaker"; _region := Some "eu-west-1" |}
           "create_endpoint" (VRef 0) VNone (Some tt) (Some "us-east-1")
           "us-west-2" store_call
           "sagemaker" (VStr "us-west-2") "create_endpoint" (VRef 0)).
  - split; [discriminate|]. left. simpl. split; [reflexivity|]. split.
    + constructor; [simpl; intros [H|[]]; discriminate H|].
      constructor; [simpl; tauto | constructor].
    + right. left. reflexivity.
  - vm_compute. right. left. reflexivity.
Defined.

Lemma X10_witness :
  exists h1,
    _call unit (fun _ => true) (fun _ => [("name", TStr "my-endpoint")])
          (fun s _ => inr s) (fun _ => "0123456789abcdef") unit
          (fun _ _ _ _ _ => inl tt)
          3 {| _service := "sagemaker"; _region := None |} "create_model"
          (VRef 0) (VRef 1) None (Some "mars-1") store_call
    = {| call_outcome := Raise (KeyError "mars-1") h1; call_trace := [] |}
    /\ (forall b, b < List.length store_call -> deref h1 b = deref store_call b).
Proof.
  apply (X10_unknown_region_with_triton_image_raises_KeyError
           unit (fun _ => true) (fun _ => [("name", TStr "my-endpoint")])
           (fun s _ => inr s) (fun _ => "0123456789abcdef") unit
           (fun _ _ _ _ _ => inl tt)
           3 {| _service := "sagemaker"; _region := None |} "create_model"
           (VRef 0) 1
           [("primary",
             VStr "{account_id}.dkr.ecr.{region}.{base}/sagemaker-tritonserver:21.08-py3")]
           None (Some "mars-1") "mars-1" store_call).
  - split; [discriminate|]. right. left. split; [exact I | reflexivity].
  - simpl. intuition discriminate.
  - reflexivity.
  - reflexivity.
Defined.

Lemma X11_witness :
  add_images (fun s _ => inr s) 0 (VStr "mars-1") (VRef 1) store_images
  = Ret tt (store_item (store_images ++ [ODict [("primary", VStr "my-image:latest")]])%list
                       0 "images" (VRef (List.length store_images))).
Proof.
  apply (X11_unmarked_images_pass_through (fun s _ => inr s) 0 1 "mars-1"
           [("primary", VStr "my-image:latest")] store_images).
  - simpl. intuition discriminate.
  - reflexivity.
  - discriminate.
  - reflexivity.
Defined.


